(** * VisionTour: the three-stage tour pipeline, its playback controller and
    its reset protocol

  A shallow embedding of [src/types.ts], [src/geminiService.ts] and the
  logic of [src/App.tsx].

  - JavaScript strings are modelled by [string]; one character stands for
    one UTF-16 code unit.  Only lengths, prefixes and concatenations are
    used, none of which depends on the width of a code unit.
  - An [async] function is a tree of synchronous effects on the component's
    [World] separated by [Await] nodes, one per [await] of an external
    promise.  Between two awaits the code runs to completion, as it does on
    the JavaScript event loop; other handlers can only run at an [Await].
  - [useState] and [useRef] cells are fields of [World]; the updater passed
    to [setState] is applied to the current value of the cell. *)

From Stdlib Require Import ZArith QArith String Ascii List Lia Bool DecimalString.
From stdpp Require Import base option list.
Import ListNotations.

Local Set Warnings "-register-all".

Declare Scope async_scope.

Local Open Scope string_scope.
Local Open Scope Z_scope.

(** ** JavaScript strings *)

Module JsString.

(** [s.substring(start, end)]: both indices are clamped to [0, length],
    swapped when out of order, and the code units in between returned. *)
Definition clamp (len i : Z) : Z := Z.min (Z.max i 0) len.

Definition substring (s : string) (start end_ : Z) : string :=
  let len := Z.of_nat (String.length s) in
  let intStart := clamp len start in
  let intEnd := clamp len end_ in
  let from := Z.min intStart intEnd in
  let to := Z.max intStart intEnd in
  String.substring (Z.to_nat from) (Z.to_nat (to - from)) s.

(** [a || b] on a possibly-undefined string: [undefined] and the empty
    string are falsy. *)
Definition or_else (a : option string) (b : string) : string :=
  match a with
  | Some EmptyString => b
  | Some s => s
  | None => b
  end.

(** Truthiness of a possibly-undefined string. *)
Definition truthy (a : option string) : bool :=
  match a with
  | Some EmptyString => false
  | Some _ => true
  | None => false
  end.

Fixpoint replicate (n : nat) (c : ascii) : string :=
  match n with
  | O => EmptyString
  | S n' => String c (replicate n' c)
  end.

End JsString.

(** ** Exceptions *)

(** A thrown value, or what a promise rejects with: an object, of which the
    handler of [handleFileUpload] reads only [message].  Every [throw] of
    the sources throws an [Error], whose message is a string; what the
    platform rejects with may have none (the event a file reader fails
    with), and [err.message] is then [undefined], here [None].  A message,
    when there is one, is a string; [throw null] and [throw undefined], on
    which reading [.message] itself throws, are outside the model. *)
Record Exn := mkExn { exn_name : string; message : option string }.

Definition Error (msg : string) : Exn := mkExn "Error" (Some msg).
Definition TypeError (msg : string) : Exn := mkExn "TypeError" (Some msg).
Definition InvalidStateError (msg : string) : Exn :=
  mkExn "InvalidStateError" (Some msg).

(** ** JSON values, as [JSON.parse] returns them *)

Inductive json (number : Type) : Type :=
| JNull
| JBool (b : bool)
| JNum (n : number)
| JStr (s : string)
| JArr (items : list (json number))
| JObj (fields : list (string * json number)).

Arguments JNull {number}.
Arguments JBool {number} b.
Arguments JNum {number} n.
Arguments JStr {number} s.
Arguments JArr {number} items.
Arguments JObj {number} fields.

(** What the code takes from the platform and from the part of [utils] that
    is not among the sources at hand. *)
Class Platform := {
  (** IEEE doubles, kept abstract. *)
  number : Type;
  (** [Number.prototype.toString]. *)
  Number_toString : number -> string;
  (** [JSON.parse]; [None] when it throws a [SyntaxError]. *)
  JSON_parse : string -> option (json number);
  (** [decodeBase64] of [utils]: the decoded bytes, or what it throws. *)
  decodeBase64 : string -> Exn + list Byte.byte
}.

Section WithPlatform.

Context {P : Platform}.

Local Abbreviation json := (json number).

(** A value read from a property: [None] is [undefined]. *)
Definition jsval : Type := option json.

Fixpoint lookup_field (key : string) (fields : list (string * json)) : jsval :=
  match fields with
  | [] => None
  | (k, v) :: rest => if String.eqb k key then Some v else lookup_field key rest
  end.

Definition has_field (key : string) (fields : list (string * json)) : bool :=
  match lookup_field key fields with Some _ => true | None => false end.

(** [v.name] for a parsed value [v].  Reading a property of [null] throws;
    primitives and arrays have no property of that name; an object yields
    its own field or [undefined]. *)
Definition get_name (v : json) : Exn + jsval :=
  match v with
  | JNull => inl (TypeError "Cannot read properties of null (reading 'name')")
  | JObj fields => inr (lookup_field "name" fields)
  | _ => inr None
  end.

(** [ToString], as a template literal applies it.  An array is joined with
    commas ([null] elements print as the empty string); a plain object
    prints as [[object Object]], unless a field named [toString] shadows
    the inherited method with a value that cannot be called. *)
Fixpoint ToString (v : json) : Exn + string :=
  match v with
  | JNull => inr "null"
  | JBool true => inr "true"
  | JBool false => inr "false"
  | JNum n => inr (Number_toString n)
  | JStr s => inr s
  | JArr items =>
      (fix join (l : list json) : Exn + string :=
         match l with
         | [] => inr ""
         | x :: rest =>
             match (match x with JNull => inr "" | _ => ToString x end) with
             | inl e => inl e
             | inr s =>
                 match rest with
                 | [] => inr s
                 | _ => match join rest with
                        | inl e => inl e
                        | inr r => inr (s ++ "," ++ r)
                        end
                 end
             end
         end) items
  | JObj fields =>
      if has_field "toString" fields
      then inl (TypeError "Cannot convert object to primitive value")
      else inr "[object Object]"
  end.

Definition template (v : jsval) : Exn + string :=
  match v with
  | None => inr "undefined"
  | Some j => ToString j
  end.

(** ** [types.ts] *)

Inductive Stage := idle | identifying | researching | narrating | ready.

(** One entry of [DetailedHistory.sources].  The fields are copied from the
    service's grounding chunk, where either may be [undefined]. *)
Record Source := mkSource { title : option string; uri : option string }.

Record DetailedHistory := mkHistory { fullStory : string; sources : list Source }.

(** The platform's [AudioBuffer]: decoded samples of one channel. *)
Record AudioBuffer := mkAudioBuffer {
  sampleRate : Z;
  numberOfChannels : Z;
  channelData : list Q
}.

(** [TourState].  [landmark] holds the value [identifyLandmark] returned,
    whatever its shape; [JNull] is [null].  [error] is [None] for [null],
    and for the [undefined] that [err.message] yields on a value without a
    message: the page only tests it for truthiness. *)
Record TourState := mkTourState {
  image : option string;
  landmark : json;
  history : option DetailedHistory;
  audioBuffer : option AudioBuffer;
  loadingStage : Stage;
  error : option string
}.

(** The argument of [useState] in [App], also the argument of [setState] in
    [resetTour]. *)
Definition initialState : TourState :=
  {| image := None; landmark := JNull; history := None; audioBuffer := None;
     loadingStage := idle; error := None |}.

(** ** The service's requests and responses *)

Inductive Part :=
| inlineData_part (mimeType data : string)
| text_part (text : string).

(** The [responseSchema] of a request. *)
Inductive Schema :=
| STRING
| NUMBER
| ARRAY (items : Schema)
| OBJECT (properties : list (string * Schema)) (required : list string).

Inductive Tool := googleSearch.
Inductive Modality := AUDIO.

Record GenerateContentConfig := mkConfig {
  responseMimeType : option string;
  responseSchema : option Schema;
  tools : list Tool;
  responseModalities : list Modality;
  voiceName : option string
}.

Record GenerateContentParameters := mkParams {
  model : string;
  contents : list Part;
  config : GenerateContentConfig
}.

Record GroundingChunkWeb := mkWeb { web_title : option string; web_uri : option string }.
Record GroundingChunk := mkChunk { web : option GroundingChunkWeb }.
Record GroundingMetadata := mkGrounding { groundingChunks : option (list GroundingChunk) }.
Record Blob := mkBlob { blob_data : option string }.
Record ResponsePart := mkResponsePart { inlineData : option Blob }.
Record Content := mkContent { parts : option (list ResponsePart) }.
Record Candidate := mkCandidate {
  content : option Content;
  groundingMetadata : option GroundingMetadata
}.

(** What [generateContent] resolves to; [text] is the SDK's accessor. *)
Record GenerateContentResponse := mkResponse {
  text : option string;
  candidates : option (list Candidate)
}.

(** ** The platform's audio objects *)

Record AudioContext := mkAudioContext { ctx_sampleRate : Z }.

Inductive PlayState := unstarted | playing | finished.

(** An [AudioBufferSourceNode] of the context. *)
Record SourceNode := mkNode { node_buffer : AudioBuffer; node_state : PlayState }.

Record File := mkFile { file_name : string; file_bytes : list Byte.byte }.

(** ** External promises *)

(** The promises [handleFileUpload] awaits and that settle outside the
    component: the file reader behind [fileToBase64], the service call
    [ai.models.generateContent] (building the client with [getAi] included)
    and [decodeAudioData]. *)
Inductive Call :=
| fileToBase64 (file : File)
| generateContent (params : GenerateContentParameters)
| decodeAudioData (data : list Byte.byte) (ctx : option AudioContext).

Definition Reply (c : Call) : Type :=
  match c with
  | fileToBase64 _ => string
  | generateContent _ => GenerateContentResponse
  | decodeAudioData _ _ => AudioBuffer
  end.

(** ** The component's cells and the effects it has on the platform *)

Record World := mkWorld {
  state : TourState;                    (* useState<TourState> *)
  audioContextRef : option AudioContext;  (* useRef<AudioContext | null> *)
  audioSourceRef : option nat;          (* useRef<AudioBufferSourceNode | null>: index in nodes *)
  nodes : list SourceNode;              (* the source nodes created so far *)
  has_vibrate : bool;                   (* 'vibrate' in navigator *)
  vibrations : list (list Z);           (* the patterns passed to navigator.vibrate *)
  commits : list TourState;             (* the value of the state cell after each setState *)
  calls : list Call                     (* the promises awaited so far *)
}.

Definition with_state (w : World) (s : TourState) : World :=
  {| state := s; audioContextRef := audioContextRef w;
     audioSourceRef := audioSourceRef w; nodes := nodes w;
     has_vibrate := has_vibrate w; vibrations := vibrations w;
     commits := commits w ++ [s]; calls := calls w |}.

Definition with_audioContextRef (w : World) (c : option AudioContext) : World :=
  {| state := state w; audioContextRef := c;
     audioSourceRef := audioSourceRef w; nodes := nodes w;
     has_vibrate := has_vibrate w; vibrations := vibrations w;
     commits := commits w; calls := calls w |}.

Definition with_audioSourceRef (w : World) (r : option nat) : World :=
  {| state := state w; audioContextRef := audioContextRef w;
     audioSourceRef := r; nodes := nodes w;
     has_vibrate := has_vibrate w; vibrations := vibrations w;
     commits := commits w; calls := calls w |}.

Definition with_nodes (w : World) (ns : list SourceNode) : World :=
  {| state := state w; audioContextRef := audioContextRef w;
     audioSourceRef := audioSourceRef w; nodes := ns;
     has_vibrate := has_vibrate w; vibrations := vibrations w;
     commits := commits w; calls := calls w |}.

Definition with_vibrations (w : World) (v : list (list Z)) : World :=
  {| state := state w; audioContextRef := audioContextRef w;
     audioSourceRef := audioSourceRef w; nodes := nodes w;
     has_vibrate := has_vibrate w; vibrations := v;
     commits := commits w; calls := calls w |}.

Definition with_calls (w : World) (cs : list Call) : World :=
  {| state := state w; audioContextRef := audioContextRef w;
     audioSourceRef := audioSourceRef w; nodes := nodes w;
     has_vibrate := has_vibrate w; vibrations := vibrations w;
     commits := commits w; calls := cs |}.

(** [setState(updater)].  The render that follows a write is modelled apart
    (see [results_markers]); a write whose state cannot be rendered is still
    recorded here. *)
Definition setState (updater : TourState -> TourState) (w : World) : World :=
  with_state w (updater (state w)).

(** ** Asynchronous computations *)

Inductive Async (A : Type) : Type :=
| Return (a : A)
| Throw (e : Exn)
| Get (k : World -> Async A)
| Modify (f : World -> World) (k : Async A)
| Await (c : Call) (k : Exn + Reply c -> Async A).

Arguments Return {A} a.
Arguments Throw {A} e.
Arguments Get {A} k.
Arguments Modify {A} f k.
Arguments Await {A} c k.

Fixpoint bind {A B : Type} (m : Async A) (f : A -> Async B) : Async B :=
  match m with
  | Return a => f a
  | Throw e => Throw e
  | Get k => Get (fun w => bind (k w) f)
  | Modify g k => Modify g (bind k f)
  | Await c k => Await c (fun r => bind (k r) f)
  end.

(** [try { m } catch (err) { handler(err) }]. *)
Fixpoint try_catch {A : Type} (m : Async A) (handler : Exn -> Async A) : Async A :=
  match m with
  | Return a => Return a
  | Throw e => handler e
  | Get k => Get (fun w => try_catch (k w) handler)
  | Modify g k => Modify g (try_catch k handler)
  | Await c k => Await c (fun r => try_catch (k r) handler)
  end.

(** [await promise] for an external promise: resumes with the value or
    rethrows the rejection. *)
Definition await (c : Call) : Async (Reply c) :=
  Await c (fun r => match r with inl e => Throw e | inr v => Return v end).

(** A synchronous statement. *)
Definition exec (f : World -> World) : Async unit := Modify f (Return tt).

(** A synchronous expression that may throw. *)
Definition eval {A : Type} (r : Exn + A) : Async A :=
  match r with inl e => Throw e | inr a => Return a end.

Notation "'let!' x ':=' m 'in' k" := (bind m (fun x => k))
  (at level 10, x name, m at level 100, k at level 200) : async_scope.
Notation "m ';;' k" := (bind m (fun _ => k))
  (at level 100, k at level 200, right associativity) : async_scope.
Local Open Scope async_scope.

(** What a computation does up to its first [await]. *)
Inductive Outcome (A : Type) : Type :=
| Finished (r : Exn + A)
| Blocked (c : Call) (k : Exn + Reply c -> Async A).

Arguments Finished {A} r.
Arguments Blocked {A} c k.

Definition log_call (c : Call) (w : World) : World :=
  with_calls w (calls w ++ [c]).

Fixpoint advance {A : Type} (m : Async A) (w : World) : World * Outcome A :=
  match m with
  | Return a => (w, Finished (inr a))
  | Throw e => (w, Finished (inl e))
  | Get k => advance (k w) w
  | Modify f k => advance k (f w)
  | Await c k => (log_call c w, Blocked c k)
  end.

(** How the awaited promises settle during one uninterrupted run. *)
Definition Env : Type := forall c : Call, Exn + Reply c.

(** A whole run, no other handler interleaved. *)
Fixpoint run {A : Type} (env : Env) (m : Async A) (w : World) : World * (Exn + A) :=
  match m with
  | Return a => (w, inr a)
  | Throw e => (w, inl e)
  | Get k => run env (k w) w
  | Modify f k => run env k (f w)
  | Await c k => run env (k (env c)) (log_call c w)
  end.

(** ** [geminiService.ts] *)

Definition landmarkSchema : Schema :=
  OBJECT
    [ ("name", STRING);
      ("shortDescription", STRING);
      ("pointsOfInterest",
        ARRAY (OBJECT
                 [ ("label", STRING); ("description", STRING);
                   ("x", NUMBER); ("y", NUMBER) ]
                 [ "label"; "description"; "x"; "y" ])) ]
    [ "name"; "shortDescription"; "pointsOfInterest" ].

Definition identifyRequest (base64Image : string) : GenerateContentParameters :=
  {| model := "gemini-3-pro-preview";
     contents :=
       [ inlineData_part "image/jpeg" base64Image;
         text_part "Identify the landmark in this photo. Provide a JSON response with the landmark name, a short description, and exactly 3 points of interest (POI) with their estimated X and Y coordinates (as percentages 0-100) relative to the image frame where they likely appear. Coordinates should be normalized." ];
     config :=
       {| responseMimeType := Some "application/json";
          responseSchema := Some landmarkSchema;
          tools := []; responseModalities := []; voiceName := None |} |}.

(** Stage 1. *)
Definition identifyLandmark (base64Image : string) : Async json :=
  let! response := await (generateContent (identifyRequest base64Image)) in
  match JSON_parse (JsString.or_else (text response) "{}") with
  | Some v => Return v
  | None => Throw (Error "Failed to parse landmark identification data.")
  end.

Definition researchPrompt (landmarkName : string) : string :=
  "Research the historical significance and interesting facts about "
  ++ landmarkName
  ++ ". Provide a detailed and engaging historical narrative. Focus on why it is important today.".

Definition researchRequest (prompt : string) : GenerateContentParameters :=
  {| model := "gemini-3-flash-preview";
     contents := [ text_part prompt ];
     config :=
       {| responseMimeType := None; responseSchema := None;
          tools := [ googleSearch ]; responseModalities := []; voiceName := None |} |}.

(** [array.map(f)] for a callback that may throw. *)
Fixpoint map_throwing {A B : Type} (f : A -> Exn + B) (l : list A) : Exn + list B :=
  match l with
  | [] => inr []
  | x :: rest =>
      match f x with
      | inl e => inl e
      | inr y =>
          match map_throwing f rest with
          | inl e => inl e
          | inr ys => inr (y :: ys)
          end
      end
  end.

(** [chunk => chunk.web]. *)
Definition has_web (chunk : GroundingChunk) : bool :=
  match web chunk with Some _ => true | None => false end.

(** [chunk => ({ title: chunk.web.title, uri: chunk.web.uri })]. *)
Definition source_of_chunk (chunk : GroundingChunk) : Exn + Source :=
  match web chunk with
  | Some w => inr {| title := web_title w; uri := web_uri w |}
  | None => inl (TypeError "Cannot read properties of undefined (reading 'title')")
  end.

(** Optional chaining [o?.f]: [undefined] when [o] is. *)
Definition chain {A B : Type} (o : option A) (f : A -> option B) : option B :=
  match o with
  | Some a => f a
  | None => None
  end.

Notation "o ?. f" := (chain o f) (at level 50, left associativity).

(** [response.candidates?.[0]?.groundingMetadata?.groundingChunks || []]. *)
Definition groundingChunks_of (response : GenerateContentResponse) : list GroundingChunk :=
  default [] (candidates response ?. head ?. groundingMetadata ?. groundingChunks).

(** Stage 2.  The parameter is declared a string; the value the caller reads
    from the landmark may be anything, and the template literal converts it. *)
Definition researchLandmark (landmarkName : jsval) : Async DetailedHistory :=
  let! name := eval (template landmarkName) in
  let prompt := researchPrompt name in
  let! response := await (generateContent (researchRequest prompt)) in
  let groundingChunks := groundingChunks_of response in
  let! sources := eval (map_throwing source_of_chunk (List.filter has_web groundingChunks)) in
  Return {| fullStory := JsString.or_else (text response) "No information found.";
            sources := sources |}.

Definition narrationPrefix : string :=
  "Speak in a warm, professional tour guide voice: ".

Definition narrationPrompt (text : string) : string :=
  narrationPrefix ++ JsString.substring text 0 1000.

Definition narrateRequest (text : string) : GenerateContentParameters :=
  {| model := "gemini-2.5-flash-preview-tts";
     contents := [ text_part (narrationPrompt text) ];
     config :=
       {| responseMimeType := None; responseSchema := None; tools := [];
          responseModalities := [ AUDIO ]; voiceName := Some "Kore" |} |}.

(** [response.candidates?.[0]?.content?.parts?.[0]?.inlineData?.data]. *)
Definition base64Audio_of (response : GenerateContentResponse) : option string :=
  candidates response ?. head ?. content ?. parts ?. head ?. inlineData ?. blob_data.

(** Stage 3. *)
Definition narrateHistory (text : string) : Async string :=
  let! response := await (generateContent (narrateRequest text)) in
  let base64Audio := base64Audio_of response in
  if negb (JsString.truthy base64Audio)
  then Throw (Error "No audio data generated.")
  else Return (default "" base64Audio).

(** ** [App.tsx] *)

(** The component as first rendered. *)
Definition initialWorld (vibrate : bool) : World :=
  {| state := initialState; audioContextRef := None; audioSourceRef := None;
     nodes := []; has_vibrate := vibrate; vibrations := [];
     commits := []; calls := [] |}.

(** The constructor is taken to succeed: a platform that cannot build a
    context at 24000 Hz is outside the model. *)
Definition initAudioContext (w : World) : World :=
  match audioContextRef w with
  | None => with_audioContextRef w (Some {| ctx_sampleRate := 24000 |})
  | Some _ => w
  end.

Definition triggerHaptic (intensity : list Z) (w : World) : World :=
  if has_vibrate w then with_vibrations w (vibrations w ++ [intensity]) else w.

(** [source.stop()]: throws on a node that was never started, ends a playing
    one and leaves a finished one as it is. *)
Definition source_stop (i : nat) (w : World) : Exn + World :=
  match nodes w !! i with
  | Some n =>
      match node_state n with
      | unstarted => inl (InvalidStateError "cannot call stop without calling start first")
      | playing => inr (with_nodes w (<[i := mkNode (node_buffer n) finished]> (nodes w)))
      | finished => inr w
      end
  | None => inr w
  end.

(** [try { audioSourceRef.current.stop(); } catch(e) {}] under
    [if (audioSourceRef.current)]. *)
Definition stop_current (w : World) : World :=
  match audioSourceRef w with
  | Some i =>
      match source_stop i w with
      | inr w' => w'
      | inl _ => w
      end
  | None => w
  end.

(** [createBufferSource()], [source.buffer = buffer], [connect]: a new node,
    not yet started.  Returns its index. *)
Definition createBufferSource (buffer : AudioBuffer) (w : World) : nat * World :=
  (length (nodes w), with_nodes w (nodes w ++ [mkNode buffer unstarted])).

(** [source.start()] on a node that was not started before. *)
Definition source_start (i : nat) (w : World) : World :=
  match nodes w !! i with
  | Some n =>
      match node_state n with
      | unstarted => with_nodes w (<[i := mkNode (node_buffer n) playing]> (nodes w))
      | _ => w
      end
  | None => w
  end.

Definition playNarration (buffer : AudioBuffer) (w : World) : World :=
  match audioContextRef w with
  | None => w
  | Some _ =>
      let w1 := stop_current w in
      let (source, w2) := createBufferSource buffer w1 in
      let w3 := source_start source w2 in
      with_audioSourceRef w3 (Some source)
  end.

Definition resetTour (w : World) : World :=
  let w1 := triggerHaptic [20] w in
  let w2 := stop_current w1 in
  setState (fun _ => {| image := None; landmark := JNull; history := None;
                        audioBuffer := None; loadingStage := idle; error := None |}) w2.

(** The [catch] block of [handleFileUpload]. *)
Definition on_error (err : Exn) : Async unit :=
  exec (setState (fun prev =>
    {| image := image prev; landmark := landmark prev; history := history prev;
       audioBuffer := audioBuffer prev;
       error := message err; loadingStage := idle |})).

(** The [try] block of [handleFileUpload]. *)
Definition pipeline (file : File) : Async unit :=
  let! base64 := await (fileToBase64 file) in
  exec (setState (fun prev =>
    {| image := Some ("data:image/jpeg;base64," ++ base64);
       landmark := landmark prev; history := history prev;
       audioBuffer := audioBuffer prev; loadingStage := loadingStage prev;
       error := error prev |})) ;;
  let! landmark_ := identifyLandmark base64 in
  exec (setState (fun prev =>
    {| image := image prev; landmark := landmark_; history := history prev;
       audioBuffer := audioBuffer prev; loadingStage := researching;
       error := error prev |})) ;;
  let! name := eval (get_name landmark_) in
  let! history_ := researchLandmark name in
  exec (setState (fun prev =>
    {| image := image prev; landmark := landmark prev; history := Some history_;
       audioBuffer := audioBuffer prev; loadingStage := narrating;
       error := error prev |})) ;;
  let! name' := eval (get_name landmark_) in
  let! name_text := eval (template name') in
  let! audioBase64 := narrateHistory (name_text ++ ". " ++ fullStory history_) in
  let! audioData := eval (decodeBase64 audioBase64) in
  let! ctx := Get (fun w => Return (audioContextRef w)) in
  let! buffer := await (decodeAudioData audioData ctx) in
  exec (setState (fun prev =>
    {| image := image prev; landmark := landmark prev; history := history prev;
       audioBuffer := Some buffer; loadingStage := ready;
       error := error prev |})) ;;
  exec (playNarration buffer).

(** [e.target.files?.[0]] is the argument: [None] when no file was chosen. *)
Definition handleFileUpload (file : option File) : Async unit :=
  match file with
  | None => Return tt
  | Some file =>
      exec (triggerHaptic [40; 30; 40]) ;;
      exec (setState (fun prev =>
        {| image := None; landmark := landmark prev; history := history prev;
           audioBuffer := audioBuffer prev; loadingStage := identifying;
           error := None |})) ;;
      exec initAudioContext ;;
      try_catch (pipeline file) on_error
  end.

(** ** What the rendered page lets the user do *)

Definition is_idle (st : TourState) : bool :=
  match loadingStage st with idle => true | _ => false end.

(** The file input is rendered under [state.loadingStage === 'idle']. *)
Definition upload_rendered (st : TourState) : bool := is_idle st.

(** A button bound to [resetTour] is rendered under [state.image] (header),
    under [state.error] (error panel) or when the stage is not idle
    (footer). *)
Definition reset_rendered (st : TourState) : bool :=
  JsString.truthy (image st) || JsString.truthy (error st) || negb (is_idle st).

(** The replay button is rendered when the stage is not idle, under
    [state.audioBuffer]; it calls [playNarration(state.audioBuffer!)]. *)
Definition replay_rendered (st : TourState) : option AudioBuffer :=
  if is_idle st then None else audioBuffer st.

(** ** The component on the event loop *)

(** A run of [handleFileUpload] suspended at an [await]. *)
Record Task := mkTask {
  awaited : Call;
  continuation : Exn + Reply awaited -> Async unit
}.

Record System := mkSystem { world : World; tasks : list Task }.

Definition initialSystem (vibrate : bool) : System :=
  mkSystem (initialWorld vibrate) [].

(** Runs a handler up to its first [await]. *)
Definition spawn (m : Async unit) (s : System) : System :=
  match advance m (world s) with
  | (w, Finished _) => mkSystem w (tasks s)
  | (w, Blocked c k) => mkSystem w (tasks s ++ [mkTask c k])
  end.

Definition upload (file : option File) (s : System) : System :=
  spawn (handleFileUpload file) s.

Definition reset (s : System) : System :=
  mkSystem (resetTour (world s)) (tasks s).

Definition replay (buffer : AudioBuffer) (s : System) : System :=
  mkSystem (playNarration buffer (world s)) (tasks s).

(** The promise awaited by task [i] settles the way [env] says, and the task
    runs up to its next [await]. *)
Definition settle (env : Env) (i : nat) (s : System) : System :=
  match tasks s !! i with
  | Some t =>
      spawn (continuation t (env (awaited t)))
            (mkSystem (world s) (delete i (tasks s)))
  | None => s
  end.

(** Playback of node [i] reaches the end of its buffer. *)
Definition playback_ends (i : nat) (s : System) : System :=
  match nodes (world s) !! i with
  | Some n =>
      match node_state n with
      | playing =>
          mkSystem (with_nodes (world s)
                      (<[i := mkNode (node_buffer n) finished]> (nodes (world s))))
                   (tasks s)
      | _ => s
      end
  | None => s
  end.

Inductive step : System -> System -> Prop :=
| step_upload file s :
    upload_rendered (state (world s)) = true ->
    step s (upload file s)
| step_reset s :
    reset_rendered (state (world s)) = true ->
    step s (reset s)
| step_replay buffer s :
    replay_rendered (state (world s)) = Some buffer ->
    step s (replay buffer s)
| step_settle env i s :
    step s (settle env i s)
| step_playback_ends i s :
    step s (playback_ends i s).

Inductive reachable (vibrate : bool) : System -> Prop :=
| reachable_init : reachable vibrate (initialSystem vibrate)
| reachable_step s s' : reachable vibrate s -> step s s' -> reachable vibrate s'.

(** The nodes that are playing, by index. *)
Definition is_playing (n : SourceNode) : bool :=
  match node_state n with playing => true | _ => false end.

Fixpoint playing_from (i : nat) (ns : list SourceNode) : list nat :=
  match ns with
  | [] => []
  | n :: rest => if is_playing n then i :: playing_from (S i) rest
                 else playing_from (S i) rest
  end.

Definition active_handles (w : World) : list nat := playing_from 0%nat (nodes w).

(** ** The marker overlay of the results view *)

(** [v.key] for a key that no built-in prototype defines: reading from
    [null] throws, an object yields its own field or [undefined], any other
    value yields [undefined]. *)
Definition get_property (key : string) (v : json) : Exn + jsval :=
  match v with
  | JNull => inl (TypeError ("Cannot read properties of null (reading '" ++ key ++ "')"))
  | JObj fields => inr (lookup_field key fields)
  | _ => inr None
  end.

(** [{ left: `${poi.x}%`, top: `${poi.y}%` }]. *)
Definition marker_style (poi : json) : Exn + (string * string) :=
  match get_property "x" poi with
  | inl e => inl e
  | inr x =>
      match template x with
      | inl e => inl e
      | inr left_ =>
          match get_property "y" poi with
          | inl e => inl e
          | inr y =>
              match template y with
              | inl e => inl e
              | inr top_ => inr (left_ ++ "%", top_ ++ "%")
              end
          end
      end
  end.

(** [state.landmark?.pointsOfInterest.map((poi, idx) => ...)] of the marker
    overlay: the styles of the markers, or what evaluating it throws.  The
    optional chain stops at a [null] landmark only; [.map] is then called on
    whatever [pointsOfInterest] is. *)
Definition poi_markers (st : TourState) : Exn + list (string * string) :=
  match landmark st with
  | JNull => inr []
  | lm =>
      match get_property "pointsOfInterest" lm with
      | inl e => inl e
      | inr None =>
          inl (TypeError "Cannot read properties of undefined (reading 'map')")
      | inr (Some JNull) =>
          inl (TypeError "Cannot read properties of null (reading 'map')")
      | inr (Some (JArr pois)) => map_throwing marker_style pois
      | inr (Some _) =>
          inl (TypeError "state.landmark?.pointsOfInterest.map is not a function")
      end
  end.

(** The overlay is part of the block rendered under
    [state.image && !state.error]: [None] when the block is not rendered. *)
Definition results_markers (st : TourState) : Exn + option (list (string * string)) :=
  if JsString.truthy (image st) && negb (JsString.truthy (error st))
  then match poi_markers st with
       | inl e => inl e
       | inr ms => inr (Some ms)
       end
  else inr None.

End WithPlatform.

Arguments Return {P A} a.
Arguments Throw {P A} e.
Arguments Get {P A} k.
Arguments Modify {P A} f k.
Arguments Await {P A} c k.
Arguments Finished {P A} r.
Arguments Blocked {P A} c k.

Notation "o ?. f" := (chain o f) (at level 50, left associativity).
Notation "'let!' x ':=' m 'in' k" := (bind m (fun x => k))
  (at level 10, x name, m at level 100, k at level 200) : async_scope.
Notation "m ';;' k" := (bind m (fun _ => k))
  (at level 100, k at level 200, right associativity) : async_scope.
Local Open Scope async_scope.

(** ** [decodeAudioSamples] *)

Module Codec.

(** The signed 16-bit integer with low byte [lo] and high byte [hi]. *)
Definition int16_le (lo hi : Byte.byte) : Z :=
  let u := Z.of_N (Byte.to_N lo) + 256 * Z.of_N (Byte.to_N hi) in
  if u <? 32768 then u else u - 65536.

(** Modelled from the spec: [decodeAudioSamples] belongs to [utils], which is
    not among the sources at hand.  The bytes are read as little-endian
    signed 16-bit integers, each divided by 32768; an odd trailing byte is
    dropped. *)
Fixpoint samples_of (bytes : list Byte.byte) : list Q :=
  match bytes with
  | lo :: hi :: rest => (int16_le lo hi # 32768)%Q :: samples_of rest
  | _ => []
  end.

(** Modelled from the spec: the samples packaged as a mono buffer at the
    given sample rate. *)
Definition decodeAudioSamples (bytes : list Byte.byte) (rate : Z) : AudioBuffer :=
  {| sampleRate := rate; numberOfChannels := 1; channelData := samples_of bytes |}.

End Codec.

(** ** Vocabulary of the statements *)

Section Vocabulary.

Context {P : Platform}.

(** The promise [m] rejects with [e], having awaited the calls [cs]. *)
Definition rejects {A : Type} (env : Env) (m : Async A) (cs : list Call) (e : Exn) : Prop :=
  forall w, run env m w = (with_calls w (calls w ++ cs), inl e).

(** The promise [m] resolves to [a], having awaited the calls [cs]. *)
Definition resolves {A : Type} (env : Env) (m : Async A) (cs : list Call) (a : A) : Prop :=
  forall w, run env m w = (with_calls w (calls w ++ cs), inr a).

(** Whether a parsed value has the shape a [responseSchema] asks the service
    for: the type of each value, and the presence of each required field. *)
Fixpoint conforms (schema : Schema) (v : json number) : bool :=
  match schema, v with
  | STRING, JStr _ => true
  | NUMBER, JNum _ => true
  | ARRAY items, JArr vs => forallb (conforms items) vs
  | OBJECT properties required, JObj fields =>
      forallb (fun key => has_field key fields) required
      && forallb (fun kv : string * Schema =>
                    match lookup_field (fst kv) fields with
                    | Some v' => conforms (snd kv) v'
                    | None => true
                    end) properties
  | _, _ => false
  end.

(** The world when the [try] block is entered. *)
Definition entered (w : World) : World :=
  initAudioContext
    (setState (fun prev =>
       {| image := None; landmark := landmark prev; history := history prev;
          audioBuffer := audioBuffer prev; loadingStage := identifying;
          error := None |})
       (triggerHaptic [40; 30; 40] w)).

(** The [try] block of [handleFileUpload] cut at its awaits: what remains
    to run once the file is read, once the landmark is identified, once its
    history is found, once the narration is synthesised and once the audio
    is decoded. *)
Definition after_decode (buffer : AudioBuffer) : Async unit :=
  exec (setState (fun prev =>
    {| image := image prev; landmark := landmark prev; history := history prev;
       audioBuffer := Some buffer; loadingStage := ready;
       error := error prev |})) ;;
  exec (playNarration buffer).

Definition after_narrate (audioBase64 : string) : Async unit :=
  let! audioData := eval (decodeBase64 audioBase64) in
  let! ctx := Get (fun w => Return (audioContextRef w)) in
  let! buffer := await (decodeAudioData audioData ctx) in
  after_decode buffer.

Definition after_research (landmark_ : json number) (history_ : DetailedHistory) : Async unit :=
  exec (setState (fun prev =>
    {| image := image prev; landmark := landmark prev; history := Some history_;
       audioBuffer := audioBuffer prev; loadingStage := narrating;
       error := error prev |})) ;;
  let! name' := eval (get_name landmark_) in
  let! name_text := eval (template name') in
  let! audioBase64 := narrateHistory (name_text ++ ". " ++ fullStory history_) in
  after_narrate audioBase64.

Definition after_identify (landmark_ : json number) : Async unit :=
  exec (setState (fun prev =>
    {| image := image prev; landmark := landmark_; history := history prev;
       audioBuffer := audioBuffer prev; loadingStage := researching;
       error := error prev |})) ;;
  let! name := eval (get_name landmark_) in
  let! history_ := researchLandmark name in
  after_research landmark_ history_.

Definition after_read (base64 : string) : Async unit :=
  exec (setState (fun prev =>
    {| image := Some ("data:image/jpeg;base64," ++ base64);
       landmark := landmark prev; history := history prev;
       audioBuffer := audioBuffer prev; loadingStage := loadingStage prev;
       error := error prev |})) ;;
  let! landmark_ := identifyLandmark base64 in
  after_identify landmark_.

(** Every node that is playing is the one [audioSourceRef] holds. *)
Definition playback_inv (w : World) : Prop :=
  forall i, i ∈ active_handles w -> audioSourceRef w = Some i.

(** The playback controller has its audio context and a single handle. *)
Definition playback_ready (w : World) : Prop :=
  playback_inv w /\ audioContextRef w <> None.

(** Every synchronous step of [m], now and after each [await], keeps [I]. *)
Inductive preserves (I : World -> Prop) {A : Type} : Async A -> Prop :=
| preserves_Return a : preserves I (Return a)
| preserves_Throw e : preserves I (Throw e)
| preserves_Get k : (forall w, preserves I (k w)) -> preserves I (Get k)
| preserves_Modify f k :
    (forall w, I w -> I (f w)) -> preserves I k -> preserves I (Modify f k)
| preserves_Await c k : (forall r, preserves I (k r)) -> preserves I (Await c k).

(** What holds of a system between two events. *)
Record system_inv (s : System) : Prop := {
  inv_playback : playback_inv (world s);
  inv_context :
    audioContextRef (world s) = None ->
    tasks s = [] /\ audioBuffer (state (world s)) = None;
  inv_tasks :
    forall t r, t ∈ tasks s -> preserves playback_ready (continuation t r)
}.

(** [playNarration] called with each buffer of [bs] in turn. *)
Definition play_all (bs : list AudioBuffer) (w : World) : World :=
  fold_left (fun w0 b => playNarration b w0) bs w.

(** Every node was started, and [audioSourceRef] holds a node that exists. *)
Definition handles_valid (w : World) : Prop :=
  (forall i n, nodes w !! i = Some n -> node_state n <> unstarted) /\
  (forall i, audioSourceRef w = Some i -> (i < length (nodes w))%nat).

(** The audio context, if any, is the one [initAudioContext] creates. *)
Definition context_at_24000 (w : World) : Prop :=
  audioContextRef w = None \/ audioContextRef w = Some {| ctx_sampleRate := 24000 |}.

(** In the [ready] stage there is a buffer to replay. *)
Definition ready_has_audio (w : World) : Prop :=
  loadingStage (state w) = ready -> audioBuffer (state w) <> None.

(** The device vibrates only if it can, and only with the two patterns of
    [handleFileUpload] and [resetTour]. *)
Definition haptics_ok (vibrate : bool) (w : World) : Prop :=
  has_vibrate w = vibrate /\
  (vibrate = false -> vibrations w = []) /\
  Forall (fun pattern => pattern = [40; 30; 40] \/ pattern = [20]) (vibrations w).

(** A stage function: it awaits and computes but leaves the component's
    cells alone. *)
Definition leaves_cells {A : Type} (m : Async A) : Prop :=
  forall I : World -> Prop, preserves I m.

(** If the computation that produced [res] from [w] returned, it left the
    stage [ready], a buffer in [audioBuffer] and [error] as it was. *)
Definition ends_ready (w : World) (res : World * (Exn + unit)) : Prop :=
  match res with
  | (w', inr _) =>
      loadingStage (state w') = ready /\
      error (state w') = error (state w) /\
      audioBuffer (state w') <> None
  | (_, inl _) => True
  end.

(** [w'] differs from [w] at most in the log of awaited calls. *)
Definition same_cells (w w' : World) : Prop :=
  state w' = state w /\ audioContextRef w' = audioContextRef w /\
  audioSourceRef w' = audioSourceRef w /\ nodes w' = nodes w /\
  has_vibrate w' = has_vibrate w /\ vibrations w' = vibrations w /\
  commits w' = commits w.

(** The component function can be evaluated in state [st]: the marker
    overlay, the first expression of the page that can throw, yields its
    markers.  The cards further down map over the same array and read
    properties of the same elements, so they throw only where the overlay
    does.  What React then makes of the elements is not modelled; with a
    landmark of the requested shape every child it is given is a string. *)
Definition renders (st : TourState) : Prop :=
  exists view, results_markers st = inr view.

(** A landmark the results view can show: [null], or a value of the shape
    the identification request asks for. *)
Definition drawable (lm : json number) : Prop :=
  lm = JNull \/ conforms landmarkSchema lm = true.

(** Whatever [identifyLandmark] resolves to for [file] under [env] can be
    shown. *)
Definition identifies_drawable (env : Env) (file : File) : Prop :=
  forall base64 response lm,
    env (fileToBase64 file) = inr base64 ->
    env (generateContent (identifyRequest base64)) = inr response ->
    JSON_parse (JsString.or_else (text response) "{}") = Some lm ->
    drawable lm.

(** Between [w] and [w'] the state was only written, and every state written
    renders: the component is still mounted in [w'] if it was in [w]. *)
Definition renders_since (w w' : World) : Prop :=
  exists new, commits w' = (commits w ++ new)%list /\ Forall renders new.

(** [renders_since], with a landmark in [w'] that can still be shown. *)
Definition stays_drawn (w w' : World) : Prop :=
  renders_since w w' /\ drawable (landmark (state w')).

(** Every run of [handleFileUpload] with a file begins by awaiting
    [fileToBase64], and nothing else awaits it: the runs started so far are
    the file reads in the log of awaited calls. *)
Definition is_file_read (c : Call) : bool :=
  match c with fileToBase64 _ => true | _ => false end.

Definition runs_started (w : World) : nat :=
  length (List.filter is_file_read (calls w)).

(** [m] awaits no file read, now or after any of its awaits, and its
    synchronous steps leave the log of awaited calls alone. *)
Inductive reads_no_file {A : Type} : Async A -> Prop :=
| reads_no_file_Return a : reads_no_file (Return a)
| reads_no_file_Throw e : reads_no_file (Throw e)
| reads_no_file_Get k : (forall w, reads_no_file (k w)) -> reads_no_file (Get k)
| reads_no_file_Modify f k :
    (forall w, calls (f w) = calls w) -> reads_no_file k -> reads_no_file (Modify f k)
| reads_no_file_Await c k :
    is_file_read c = false -> (forall r, reads_no_file (k r)) -> reads_no_file (Await c k).

End Vocabulary.

(** ** A concrete platform, for closed examples *)

Module Sample.

Definition dquote : ascii := ascii_of_nat 34.

Definition quoted (s : string) : string := String dquote (s ++ String dquote "").

(** The text of a complete identification payload. *)
Definition landmark_text : string :=
  "{" ++ quoted "name" ++ ":" ++ quoted "Eiffel Tower" ++ ","
  ++ quoted "shortDescription" ++ ":" ++ quoted "Iron lattice tower in Paris" ++ ","
  ++ quoted "pointsOfInterest" ++ ":[{"
  ++ quoted "label" ++ ":" ++ quoted "Summit" ++ ","
  ++ quoted "description" ++ ":" ++ quoted "Top deck" ++ ","
  ++ quoted "x" ++ ":50," ++ quoted "y" ++ ":10}]}".

Definition landmark_value : json Z :=
  JObj [ ("name", JStr "Eiffel Tower");
         ("shortDescription", JStr "Iron lattice tower in Paris");
         ("pointsOfInterest",
           JArr [ JObj [ ("label", JStr "Summit"); ("description", JStr "Top deck");
                         ("x", JNum 50); ("y", JNum 10) ] ]) ].

(** [JSON.parse] on the texts used below: the empty object, [null], the
    payload above; the text [not json] is among those it rejects. *)
Definition parse (s : string) : option (json Z) :=
  if (s =? "{}")%string then Some (JObj [])
  else if (s =? "null")%string then Some JNull
  else if (s =? landmark_text)%string then Some landmark_value
  else None.

(** Base64 decoding on the one payload used below: two 16-bit samples,
    0 and 32767. *)
Definition decode64 (s : string) : Exn + list Byte.byte :=
  if (s =? "AAD/fw==")%string
  then inr [Byte.x00; Byte.x00; Byte.xff; Byte.x7f]
  else inl (mkExn "InvalidCharacterError"
            (Some "The string to be decoded is not correctly encoded.")).

(** Numbers restricted to integers, printed in decimal. *)
Definition platform : Platform :=
  {| number := Z;
     Number_toString := fun z => NilZero.string_of_int (Z.to_int z);
     JSON_parse := parse;
     decodeBase64 := decode64 |}.

Definition photo : File := mkFile "photo.jpg" [Byte.xff; Byte.xd8; Byte.xff].

(** Replies chosen per kind of promise and, for the service, per model. *)
Definition env_of (file_reply : Exn + string)
    (identify_reply research_reply narrate_reply : Exn + GenerateContentResponse)
    (decode_reply : Exn + AudioBuffer) : Env :=
  fun c =>
    match c as c0 return Exn + Reply c0 with
    | fileToBase64 _ => file_reply
    | generateContent p =>
        if (model p =? "gemini-3-pro-preview")%string then identify_reply
        else if (model p =? "gemini-3-flash-preview")%string then research_reply
        else narrate_reply
    | decodeAudioData _ _ => decode_reply
    end.

Definition text_response (t : string) : GenerateContentResponse :=
  {| text := Some t; candidates := None |}.

Definition grounded_response (t : string) : GenerateContentResponse :=
  {| text := Some t;
     candidates :=
       Some [ {| content := None;
                 groundingMetadata :=
                   Some {| groundingChunks :=
                     Some [ {| web := Some {| web_title := Some "Wikipedia";
                                              web_uri := Some "https://en.wikipedia.org/wiki/Eiffel_Tower" |} |};
                            {| web := None |} ] |} |} ] |}.

Definition audio_response (data : string) : GenerateContentResponse :=
  {| text := None;
     candidates :=
       Some [ {| content := Some {| parts := Some [ {| inlineData := Some {| blob_data := Some data |} |} ] |};
                 groundingMetadata := None |} ] |}.

Definition buffer : AudioBuffer :=
  Codec.decodeAudioSamples [Byte.x00; Byte.x00; Byte.xff; Byte.x7f] 24000.

(** What [researchLandmark] makes of [grounded_response]. *)
Definition eiffel_history : DetailedHistory :=
  {| fullStory := "Built in 1889.";
     sources := [ mkSource (Some "Wikipedia")
                    (Some "https://en.wikipedia.org/wiki/Eiffel_Tower") ] |}.

Definition empty_response : GenerateContentResponse :=
  {| text := None; candidates := None |}.

(** Every call succeeds. *)
Definition ok_env : Env :=
  env_of (inr "QUJD") (inr (text_response landmark_text))
         (inr (grounded_response "Built in 1889."))
         (inr (audio_response "AAD/fw==")) (inr buffer).

(** The identification call is rejected. *)
Definition identify_fails_env : Env :=
  env_of (inr "QUJD") (inl (Error "Network error"))
         (inr (grounded_response "Built in 1889."))
         (inr (audio_response "AAD/fw==")) (inr buffer).

(** The research call is rejected. *)
Definition research_fails_env : Env :=
  env_of (inr "QUJD") (inr (text_response landmark_text))
         (inl (Error "Quota exceeded"))
         (inr (audio_response "AAD/fw==")) (inr buffer).

(** The narration call answers without audio. *)
Definition narrate_fails_env : Env :=
  env_of (inr "QUJD") (inr (text_response landmark_text))
         (inr (grounded_response "Built in 1889."))
         (inr empty_response) (inr buffer).

(** The identification call answers with no text at all. *)
Definition empty_payload_env : Env :=
  env_of (inr "QUJD") (inr empty_response)
         (inr (grounded_response "Built in 1889."))
         (inr (audio_response "AAD/fw==")) (inr buffer).

(** The identification call answers with text that is not JSON. *)
Definition unparsable_env : Env :=
  env_of (inr "QUJD") (inr (text_response "not json"))
         (inr (grounded_response "Built in 1889."))
         (inr (audio_response "AAD/fw==")) (inr buffer).

(** A run under [ok_env], one settled promise at a time. *)
Definition reading : System := upload (P := platform) (Some photo) (initialSystem false).
Definition identifying_system : System := settle ok_env 0 reading.
Definition researching_system : System := settle ok_env 0 identifying_system.
Definition narrating_system : System := settle ok_env 0 researching_system.
Definition decoding_system : System := settle ok_env 0 narrating_system.
Definition ready_system : System := settle ok_env 0 decoding_system.

(** The file cannot be read. *)
Definition read_fails_env : Env :=
  env_of (inl (Error "File could not be read")) (inr (text_response landmark_text))
         (inr (grounded_response "Built in 1889."))
         (inr (audio_response "AAD/fw==")) (inr buffer).

(** The narration carries data that is not base64. *)
Definition bad_audio_env : Env :=
  env_of (inr "QUJD") (inr (text_response landmark_text))
         (inr (grounded_response "Built in 1889."))
         (inr (audio_response "***")) (inr buffer).

(** The identification call answers with the text [null]. *)
Definition null_payload_env : Env :=
  env_of (inr "QUJD") (inr (text_response "null"))
         (inr (grounded_response "Built in 1889."))
         (inr (audio_response "AAD/fw==")) (inr buffer).

(** A narration response whose audio comes second, after a part without
    inline data. *)
Definition audio_in_second_part : GenerateContentResponse :=
  {| text := None;
     candidates :=
       Some [ {| content :=
                   Some {| parts :=
                     Some [ {| inlineData := None |};
                            {| inlineData := Some {| blob_data := Some "AAD/fw==" |} |} ] |};
                 groundingMetadata := None |} ] |}.

(** The narration call answers with [audio_in_second_part]. *)
Definition second_part_env : Env :=
  env_of (inr "QUJD") (inr (text_response landmark_text))
         (inr (grounded_response "Built in 1889."))
         (inr audio_in_second_part) (inr buffer).

(** A state showing the sample landmark over its picture. *)
Definition eiffel_state : TourState (P := platform) :=
  mkTourState (P := platform) (Some "data:image/jpeg;base64,QUJD") landmark_value
    (Some eiffel_history) (Some buffer) ready None.

End Sample.

(** * Properties *)

(** ** Strings *)

Lemma length_append (a b : string) :
  String.length (a ++ b) = (String.length a + String.length b)%nat.
Proof. induction a as [|c a IH]; simpl; [reflexivity | now rewrite IH]. Qed.

Lemma length_substring0 (n : nat) (s : string) :
  String.length (String.substring 0 n s) = Nat.min n (String.length s).
Proof.
  revert n; induction s as [|c s IH]; intros [|n]; simpl; try reflexivity.
  now rewrite IH.
Qed.

Lemma substring0_prefix (n : nat) (s : string) :
  exists rest, s = String.substring 0 n s ++ rest.
Proof.
  revert n; induction s as [|c s IH]; intros [|n]; simpl.
  - now exists "".
  - now exists "".
  - now exists (String c s).
  - destruct (IH n) as [rest Hrest]. exists rest. now rewrite <- Hrest.
Qed.

Lemma substring0_all (s : string) (m : nat) :
  (String.length s <= m)%nat -> String.substring 0 m s = s.
Proof.
  revert m; induction s as [|c s IH]; intros [|m] Hm; simpl in *;
    try reflexivity; try lia.
  now rewrite IH by lia.
Qed.

Lemma js_substring_from_0 (s : string) (n : Z) :
  0 <= n ->
  JsString.substring s 0 n = String.substring 0 (Z.to_nat n) s.
Proof.
  intros Hn. unfold JsString.substring, JsString.clamp.
  set (len := Z.of_nat (String.length s)).
  assert (0 <= len) by (subst len; lia).
  replace (Z.min (Z.min (Z.max 0 0) len) (Z.min (Z.max n 0) len)) with 0 by lia.
  replace (Z.max (Z.min (Z.max 0 0) len) (Z.min (Z.max n 0) len) - 0)
    with (Z.min n len) by lia.
  change (Z.to_nat 0) with 0%nat.
  destruct (Z.le_ge_cases n len) as [Hle|Hge].
  - now rewrite Z.min_l by lia.
  - rewrite Z.min_r by lia.
    rewrite !substring0_all; [reflexivity | subst len; lia | subst len; lia].
Qed.

(** ** The codec *)

Lemma int16_le_range (lo hi : Byte.byte) : -32768 <= Codec.int16_le lo hi < 32768.
Proof.
  unfold Codec.int16_le.
  pose proof (Byte.to_N_bounded lo). pose proof (Byte.to_N_bounded hi).
  destruct (Z.ltb_spec (Z.of_N (Byte.to_N lo) + 256 * Z.of_N (Byte.to_N hi)) 32768); lia.
Qed.

Lemma samples_of_length (bytes : list Byte.byte) :
  length (Codec.samples_of bytes) = Nat.div2 (length bytes).
Proof.
  enough (H : length (Codec.samples_of bytes) = Nat.div2 (length bytes) /\
              forall b, length (Codec.samples_of (b :: bytes)) = Nat.div2 (S (length bytes)))
    by apply H.
  induction bytes as [|b0 rest [IH1 IH2]]; simpl; split; try reflexivity.
  - apply IH2.
  - intros b. simpl. now rewrite IH1.
Qed.

Lemma samples_of_lookup (bytes : list Byte.byte) (i : nat) (lo hi : Byte.byte) :
  bytes !! (2 * i)%nat = Some lo ->
  bytes !! (2 * i + 1)%nat = Some hi ->
  Codec.samples_of bytes !! i = Some (Codec.int16_le lo hi # 32768)%Q.
Proof.
  revert bytes. induction i as [|i IH]; intros bytes Hlo Hhi.
  - destruct bytes as [|b0 [|b1 rest]]; simpl in *; try discriminate.
    now inversion Hlo; inversion Hhi; subst.
  - destruct bytes as [|b0 [|b1 rest]]; simpl in *; try discriminate.
    apply IH.
    + replace (i + S (i + 0))%nat with (S (2 * i)) in Hlo by lia. exact Hlo.
    + replace (i + S (i + 0) + 1)%nat with (S (2 * i + 1)) in Hhi by lia. exact Hhi.
Qed.

(** C9 (against the codec as the specification describes it).
    [decodeAudioSamples] reads its bytes as little-endian signed 16-bit
    integers and divides each by 32768: a stream of [2n] bytes, and one of
    [2n+1] bytes, both give exactly [n] samples, sample [i] being the integer
    made of bytes [2i] and [2i+1] over 32768, in a mono buffer at the given
    rate.  The result is a function of the bytes alone. *)
Theorem decodeAudioSamples_spec (bytes : list Byte.byte) (rate : Z) (n : nat) :
  length bytes = (2 * n)%nat \/ length bytes = (2 * n + 1)%nat ->
  let buf := Codec.decodeAudioSamples bytes rate in
  sampleRate buf = rate /\
  numberOfChannels buf = 1 /\
  length (channelData buf) = n /\
  (forall i lo hi,
      bytes !! (2 * i)%nat = Some lo ->
      bytes !! (2 * i + 1)%nat = Some hi ->
      channelData buf !! i = Some (Codec.int16_le lo hi # 32768)%Q /\
      -32768 <= Codec.int16_le lo hi < 32768) /\
  (forall bytes', bytes' = bytes -> Codec.decodeAudioSamples bytes' rate = buf).
Proof.
  intros Hlen buf. subst buf. unfold Codec.decodeAudioSamples. simpl.
  repeat split.
  - rewrite samples_of_length.
    destruct Hlen as [-> | ->].
    + replace (2 * n)%nat with (n + n)%nat by lia. clear.
      induction n as [|n IH]; [reflexivity|].
      replace (S n + S n)%nat with (S (S (n + n))) by lia. simpl. now rewrite IH.
    + replace (2 * n + 1)%nat with (S (n + n)) by lia. clear.
      induction n as [|n IH]; [reflexivity|].
      replace (S (S n + S n))%nat with (S (S (S (n + n)))) by lia.
      change (Nat.div2 (S (S (S (n + n))))) with (S (Nat.div2 (S (n + n)))).
      now rewrite IH.
  - now apply samples_of_lookup.
  - apply int16_le_range.
  - apply int16_le_range.
  - now intros bytes' ->.
Qed.

Lemma decodeAudioSamples_spec_witness :
  length [Byte.x00; Byte.x00; Byte.xff; Byte.x7f; Byte.x01] = (2 * 2 + 1)%nat /\
  length (channelData
            (Codec.decodeAudioSamples
               [Byte.x00; Byte.x00; Byte.xff; Byte.x7f; Byte.x01] 24000)) = 2%nat.
Proof.
  split; [reflexivity|].
  exact (proj1 (proj2 (proj2
    (decodeAudioSamples_spec
       [Byte.x00; Byte.x00; Byte.xff; Byte.x7f; Byte.x01] 24000 2
       (or_intror eq_refl))))).
Defined.

Example decodeAudioSamples_two_samples :
  channelData (Codec.decodeAudioSamples [Byte.x00; Byte.x00; Byte.xff; Byte.x7f; Byte.x01] 24000)
  = [ (0 # 32768)%Q; (32767 # 32768)%Q ].
Proof. reflexivity. Qed.

Example decodeAudioSamples_negative :
  channelData (Codec.decodeAudioSamples [Byte.x00; Byte.x80; Byte.xff; Byte.xff] 24000)
  = [ (-32768 # 32768)%Q; (-1 # 32768)%Q ].
Proof. reflexivity. Qed.

(** ** Running asynchronous computations *)

Section Properties.

Context {P : Platform}.

Lemma run_bind {A B : Type} (env : Env) (m : Async A) (f : A -> Async B) (w : World) :
  run env (bind m f) w =
  match run env m w with
  | (w', inr a) => run env (f a) w'
  | (w', inl e) => (w', inl e)
  end.
Proof.
  revert w. induction m as [a|e|k IH|g k IH|c k IH]; intros w; simpl; auto.
Qed.

Lemma run_try_catch {A : Type} (env : Env) (m : Async A) (h : Exn -> Async A) (w : World) :
  run env (try_catch m h) w =
  match run env m w with
  | (w', inr a) => (w', inr a)
  | (w', inl e) => run env (h e) w'
  end.
Proof.
  revert w. induction m as [a|e|k IH|g k IH|c k IH]; intros w; simpl; auto.
Qed.

Lemma run_await (env : Env) (c : Call) (w : World) :
  run env (await c) w = (log_call c w, env c).
Proof. simpl. now destruct (env c). Qed.

Lemma run_eval {A : Type} (env : Env) (r : Exn + A) (w : World) :
  run env (eval r) w = (w, r).
Proof. now destruct r. Qed.

Lemma run_exec (env : Env) (f : World -> World) (w : World) :
  run env (exec f) w = (f w, inr tt).
Proof. reflexivity. Qed.

Lemma advance_bind {A B : Type} (m : Async A) (f : A -> Async B) (w : World) :
  advance (bind m f) w =
  match advance m w with
  | (w', Finished (inr a)) => advance (f a) w'
  | (w', Finished (inl e)) => (w', Finished (inl e))
  | (w', Blocked c k) => (w', Blocked c (fun r => bind (k r) f))
  end.
Proof.
  revert w. induction m as [a|e|k IH|g k IH|c k IH]; intros w; simpl; auto.
Qed.

Lemma advance_try_catch {A : Type} (m : Async A) (h : Exn -> Async A) (w : World) :
  advance (try_catch m h) w =
  match advance m w with
  | (w', Finished (inr a)) => (w', Finished (inr a))
  | (w', Finished (inl e)) => advance (h e) w'
  | (w', Blocked c k) => (w', Blocked c (fun r => try_catch (k r) h))
  end.
Proof.
  revert w. induction m as [a|e|k IH|g k IH|c k IH]; intros w; simpl; auto.
Qed.

(** ** The three stages *)

Lemma run_identifyLandmark_throws (env : Env) (base64 : string) (e : Exn) (w : World) :
  env (generateContent (identifyRequest base64)) = inl e ->
  run env (identifyLandmark base64) w
  = (log_call (generateContent (identifyRequest base64)) w, inl e).
Proof. intros H. unfold identifyLandmark. simpl. now rewrite H. Qed.

Lemma run_identifyLandmark_unparsable (env : Env) (base64 : string)
    (response : GenerateContentResponse) (w : World) :
  env (generateContent (identifyRequest base64)) = inr response ->
  JSON_parse (JsString.or_else (text response) "{}") = None ->
  run env (identifyLandmark base64) w
  = (log_call (generateContent (identifyRequest base64)) w,
     inl (Error "Failed to parse landmark identification data.")).
Proof. intros H Hp. unfold identifyLandmark. simpl. rewrite H. simpl. now rewrite Hp. Qed.

Lemma run_identifyLandmark_parsed (env : Env) (base64 : string)
    (response : GenerateContentResponse) (v : json number) (w : World) :
  env (generateContent (identifyRequest base64)) = inr response ->
  JSON_parse (JsString.or_else (text response) "{}") = Some v ->
  run env (identifyLandmark base64) w
  = (log_call (generateContent (identifyRequest base64)) w, inr v).
Proof. intros H Hp. unfold identifyLandmark. simpl. rewrite H. simpl. now rewrite Hp. Qed.

(** The sources [researchLandmark] builds from a response. *)
Lemma sources_of_chunks (chunks : list GroundingChunk) :
  map_throwing source_of_chunk (List.filter has_web chunks)
  = inr (omap (fun chunk =>
                 (fun wb => mkSource (web_title wb) (web_uri wb)) <$> web chunk)
              chunks).
Proof.
  induction chunks as [|chunk rest IH]; [reflexivity|].
  destruct chunk as [[wb|]].
  - change (List.filter has_web ({| web := Some wb |} :: rest))
      with ({| web := Some wb |} :: List.filter has_web rest).
    change (map_throwing source_of_chunk ({| web := Some wb |} :: List.filter has_web rest))
      with (match map_throwing source_of_chunk (List.filter has_web rest) with
            | inl e => inl e
            | inr ys => inr (mkSource (web_title wb) (web_uri wb) :: ys)
            end).
    now rewrite IH.
  - exact IH.
Qed.

Lemma run_researchLandmark (env : Env) (landmarkName : jsval) (name : string)
    (response : GenerateContentResponse) (w : World) :
  template landmarkName = inr name ->
  env (generateContent (researchRequest (researchPrompt name))) = inr response ->
  run env (researchLandmark landmarkName) w
  = (log_call (generateContent (researchRequest (researchPrompt name))) w,
     inr {| fullStory := JsString.or_else (text response) "No information found.";
            sources :=
              omap (fun chunk =>
                      (fun wb => mkSource (web_title wb) (web_uri wb)) <$> web chunk)
                   (groundingChunks_of response) |}).
Proof.
  intros Hname H. unfold researchLandmark. rewrite Hname. simpl. rewrite H. simpl.
  rewrite sources_of_chunks. reflexivity.
Qed.

Lemma run_researchLandmark_throws (env : Env) (landmarkName : jsval)
    (name : string) (e : Exn) (w : World) :
  template landmarkName = inr name ->
  env (generateContent (researchRequest (researchPrompt name))) = inl e ->
  run env (researchLandmark landmarkName) w
  = (log_call (generateContent (researchRequest (researchPrompt name))) w, inl e).
Proof. intros Hname H. unfold researchLandmark. rewrite Hname. simpl. now rewrite H. Qed.


Lemma run_narrateHistory_no_audio (env : Env) (story : string)
    (response : GenerateContentResponse) (w : World) :
  env (generateContent (narrateRequest story)) = inr response ->
  JsString.truthy (base64Audio_of response) = false ->
  run env (narrateHistory story) w
  = (log_call (generateContent (narrateRequest story)) w,
     inl (Error "No audio data generated.")).
Proof. intros H Ha. unfold narrateHistory. simpl. rewrite H. simpl. now rewrite Ha. Qed.

Lemma run_narrateHistory_throws (env : Env) (story : string) (e : Exn) (w : World) :
  env (generateContent (narrateRequest story)) = inl e ->
  run env (narrateHistory story) w
  = (log_call (generateContent (narrateRequest story)) w, inl e).
Proof. intros H. unfold narrateHistory. simpl. now rewrite H. Qed.

(** C10.  [researchLandmark] does not fail on an empty or ungrounded
    response: whatever the service answers, it resolves to a history whose
    [fullStory] is the response text, or "No information found." when the
    text is absent or empty, and whose [sources] are the title and uri of
    exactly the grounding chunks that carry a [web] field, in order; without
    grounding metadata the list is empty. *)
Theorem researchLandmark_total (env : Env) (landmarkName : jsval) (name : string)
    (response : GenerateContentResponse) (w : World) :
  template landmarkName = inr name ->
  env (generateContent (researchRequest (researchPrompt name))) = inr response ->
  exists h,
    run env (researchLandmark landmarkName) w
    = (log_call (generateContent (researchRequest (researchPrompt name))) w, inr h) /\
    (JsString.truthy (text response) = false -> fullStory h = "No information found.") /\
    (JsString.truthy (text response) = true -> Some (fullStory h) = text response) /\
    sources h
    = omap (fun chunk => (fun wb => mkSource (web_title wb) (web_uri wb)) <$> web chunk)
           (groundingChunks_of response) /\
    (forall src, src ∈ sources h <->
       exists chunk wb, chunk ∈ groundingChunks_of response /\ web chunk = Some wb /\
                        src = mkSource (web_title wb) (web_uri wb)) /\
    (candidates response ?. head ?. groundingMetadata = None -> sources h = []).
Proof.
  intros Hname H. eexists.
  split; [exact (run_researchLandmark env landmarkName name response w Hname H)|]. simpl.
  repeat split.
  - destruct (text response) as [[|c t]|]; simpl; congruence.
  - destruct (text response) as [[|c t]|]; simpl; congruence.
  - intros Hin. apply list_elem_of_omap in Hin as (chunk & Hin & Hsrc).
    destruct (web chunk) as [wb|] eqn:Hweb; [|discriminate].
    exists chunk, wb. simpl in Hsrc. inversion Hsrc. auto.
  - intros (chunk & wb & Hin & Hweb & ->). apply list_elem_of_omap.
    exists chunk. split; [exact Hin|]. now rewrite Hweb.
  - intros Hnone. unfold groundingChunks_of. now rewrite Hnone.
Qed.

(** C2, as the code has it.  [narrateHistory] sends one request whose prompt
    is a fixed 48-character instruction followed by the first
    [min 1000 (length text)] characters of its argument: the argument is cut
    at 1000 characters, the prompt as a whole at 1048. *)
Theorem narrateHistory_prompt_cap (text_ : string) (w : World) :
  (exists k,
      advance (narrateHistory text_) w
      = (log_call (generateContent (narrateRequest text_)) w,
         Blocked (generateContent (narrateRequest text_)) k)) /\
  (exists cut rest,
      contents (narrateRequest text_) = [ text_part (narrationPrefix ++ cut) ] /\
      text_ = cut ++ rest /\
      String.length cut = Nat.min 1000 (String.length text_)) /\
  String.length narrationPrefix = 48%nat /\
  (String.length (narrationPrompt text_) <= 1048)%nat.
Proof.
  assert (Hcut : JsString.substring text_ 0 1000 = String.substring 0 1000 text_).
  { rewrite js_substring_from_0 by lia. reflexivity. }
  split; [|split; [|split]].
  - eexists. reflexivity.
  - destruct (substring0_prefix 1000 text_) as [rest Hrest].
    exists (String.substring 0 1000 text_), rest. split; [|split].
    + unfold narrateRequest, narrationPrompt. simpl. now rewrite Hcut.
    + exact Hrest.
    + apply length_substring0.
  - reflexivity.
  - unfold narrationPrompt. rewrite length_append, Hcut, length_substring0.
    change (String.length narrationPrefix) with 48%nat. lia.
Qed.

(** ** One uninterrupted run of [handleFileUpload] *)

Lemma run_handleFileUpload (env : Env) (file : File) (w : World) :
  run env (handleFileUpload (Some file)) w
  = match run env (pipeline file) (entered w) with
    | (w', inr a) => (w', inr a)
    | (w', inl e) => run env (on_error e) w'
    end.
Proof. unfold handleFileUpload. simpl. now rewrite run_try_catch. Qed.

Lemma state_entered (w : World) :
  state (entered w)
  = {| image := None; landmark := landmark (state w); history := history (state w);
       audioBuffer := audioBuffer (state w); loadingStage := identifying;
       error := None |}.
Proof.
  unfold entered, initAudioContext, triggerHaptic, setState.
  destruct (has_vibrate w); simpl;
    destruct (audioContextRef w) eqn:E; simpl; rewrite ?E; reflexivity.
Qed.

Lemma calls_entered (w : World) : calls (entered w) = calls w.
Proof.
  unfold entered, initAudioContext, triggerHaptic, setState.
  destruct (has_vibrate w); simpl;
    destruct (audioContextRef w) eqn:E; simpl; rewrite ?E; reflexivity.
Qed.

Lemma audioContextRef_entered (w : World) :
  audioContextRef (entered w)
  = Some (default {| ctx_sampleRate := 24000 |} (audioContextRef w)).
Proof.
  unfold entered, initAudioContext, triggerHaptic, setState.
  destruct (has_vibrate w); simpl;
    destruct (audioContextRef w) eqn:E; simpl; rewrite ?E; reflexivity.
Qed.

Lemma identification_failure_run (env : Env) (file : File) (base64 : string)
    (w : World) (cs : list Call) (e : Exn) :
  env (fileToBase64 file) = inr base64 ->
  rejects env (identifyLandmark base64) cs e ->
  snd (run env (handleFileUpload (Some file)) w) = inr tt /\
  state (fst (run env (handleFileUpload (Some file)) w))
  = {| image := Some ("data:image/jpeg;base64," ++ base64);
       landmark := landmark (state w);
       history := history (state w); audioBuffer := audioBuffer (state w);
       loadingStage := idle; error := message e |} /\
  calls (fst (run env (handleFileUpload (Some file)) w))
  = (calls w ++ fileToBase64 file :: cs)%list.
Proof.
  intros Hfile Hid.
  rewrite run_handleFileUpload.
  pose proof (state_entered w) as Hst. pose proof (calls_entered w) as Hcs.
  unfold pipeline.
  rewrite run_bind, run_await, Hfile, run_bind, run_exec.
  rewrite run_bind, Hid. simpl. rewrite Hst, Hcs. simpl.
  repeat split. now rewrite <- app_assoc.
Qed.

(** The state and the log of calls a run ends with when one of its three
    stages fails. *)
Lemma failed_stage_run (env : Env) (file : File) (base64 : string) (w : World) :
  env (fileToBase64 file) = inr base64 ->
  let final := run env (handleFileUpload (Some file)) w in
  let picture := Some ("data:image/jpeg;base64," ++ base64) in
  (forall cs e,
      rejects env (identifyLandmark base64) cs e ->
      snd final = inr tt /\
      state (fst final)
      = {| image := picture; landmark := landmark (state w);
           history := history (state w); audioBuffer := audioBuffer (state w);
           loadingStage := idle; error := message e |} /\
      calls (fst final) = (calls w ++ fileToBase64 file :: cs)%list) /\
  (forall cs1 lm name cs2 e,
      resolves env (identifyLandmark base64) cs1 lm ->
      get_name lm = inr name ->
      rejects env (researchLandmark name) cs2 e ->
      snd final = inr tt /\
      state (fst final)
      = {| image := picture; landmark := lm;
           history := history (state w); audioBuffer := audioBuffer (state w);
           loadingStage := idle; error := message e |} /\
      calls (fst final) = (calls w ++ fileToBase64 file :: cs1 ++ cs2)%list) /\
  (forall cs1 lm name name_text cs2 h cs3 e,
      resolves env (identifyLandmark base64) cs1 lm ->
      get_name lm = inr name ->
      template name = inr name_text ->
      resolves env (researchLandmark name) cs2 h ->
      rejects env (narrateHistory (name_text ++ ". " ++ fullStory h)) cs3 e ->
      snd final = inr tt /\
      state (fst final)
      = {| image := picture; landmark := lm;
           history := Some h; audioBuffer := audioBuffer (state w);
           loadingStage := idle; error := message e |} /\
      calls (fst final) = (calls w ++ fileToBase64 file :: cs1 ++ cs2 ++ cs3)%list).
Proof.
  intros Hfile final picture. subst final picture.
  rewrite run_handleFileUpload.
  pose proof (state_entered w) as Hst. pose proof (calls_entered w) as Hcs.
  unfold pipeline.
  rewrite run_bind, run_await, Hfile, run_bind, run_exec.
  split; [|split].
  - intros cs e Hid.
    pose proof (identification_failure_run env file base64 w cs e Hfile Hid) as H.
    rewrite run_handleFileUpload in H. unfold pipeline in H.
    rewrite run_bind, run_await, Hfile, run_bind, run_exec in H. exact H.
  - intros cs1 lm name cs2 e Hid Hname Hres.
    rewrite run_bind, Hid, run_bind, run_exec, run_bind, run_eval, Hname.
    rewrite run_bind, Hres. simpl. rewrite Hst, Hcs. simpl.
    repeat split. now rewrite <- !app_assoc.
  - intros cs1 lm name name_text cs2 h cs3 e Hid Hname Htext Hres Hnar.
    rewrite run_bind, Hid, run_bind, run_exec, run_bind, run_eval, Hname.
    rewrite run_bind, Hres, run_bind, run_exec, run_bind, run_eval.
    rewrite run_bind, run_eval, Htext, run_bind, Hnar.
    simpl. rewrite Hst, Hcs. simpl.
    repeat split. now rewrite <- !app_assoc.
Qed.

(** ** The playback controller *)

Lemma elem_of_playing_from (k i : nat) (ns : list SourceNode) :
  i ∈ playing_from k ns <->
  exists n, (k <= i)%nat /\ ns !! (i - k)%nat = Some n /\ node_state n = playing.
Proof.
  revert k. induction ns as [|n0 ns IH]; intros k; simpl.
  - split; [intros H; inversion H | intros (n & _ & H & _); discriminate].
  - assert (Hcase : i ∈ (if is_playing n0 then k :: playing_from (S k) ns
                         else playing_from (S k) ns) <->
                    (i = k /\ node_state n0 = playing) \/ i ∈ playing_from (S k) ns).
    { unfold is_playing. destruct (node_state n0); rewrite ?elem_of_cons;
        intuition congruence. }
    rewrite Hcase, IH. split.
    + intros [[-> Hn0] | (n & Hk & Hn & Hp)].
      * exists n0. rewrite Nat.sub_diag. auto.
      * exists n. split; [lia|]. split; [|exact Hp].
        replace (i - k)%nat with (S (i - S k)) by lia. exact Hn.
    + intros (n & Hk & Hn & Hp).
      destruct (decide (i = k)) as [->|Hne].
      * left. rewrite Nat.sub_diag in Hn. simpl in Hn. inversion Hn; subst. auto.
      * right. exists n. split; [lia|]. split; [|exact Hp].
        replace (i - k)%nat with (S (i - S k)) in Hn by lia. exact Hn.
Qed.

Lemma elem_of_active_handles (w : World) (i : nat) :
  i ∈ active_handles w <->
  exists n, nodes w !! i = Some n /\ node_state n = playing.
Proof.
  unfold active_handles. rewrite elem_of_playing_from.
  rewrite Nat.sub_0_r. split.
  - intros (n & _ & H); eauto.
  - intros (n & H); exists n; split; [lia | exact H].
Qed.

Lemma playing_from_app (k : nat) (l1 l2 : list SourceNode) :
  playing_from k (l1 ++ l2)
  = (playing_from k l1 ++ playing_from (k + length l1) l2)%list.
Proof.
  revert k. induction l1 as [|n l1 IH]; intros k; simpl.
  - now rewrite Nat.add_0_r.
  - rewrite IH. replace (S k + length l1)%nat with (k + S (length l1))%nat by lia.
    now destruct (is_playing n).
Qed.

(** What [stop_current] changes: at most the state of the node held by
    [audioSourceRef], and only from playing to finished. *)
Lemma stop_current_spec (w : World) :
  state (stop_current w) = state w /\
  audioContextRef (stop_current w) = audioContextRef w /\
  audioSourceRef (stop_current w) = audioSourceRef w /\
  vibrations (stop_current w) = vibrations w /\
  has_vibrate (stop_current w) = has_vibrate w /\
  commits (stop_current w) = commits w /\
  calls (stop_current w) = calls w /\
  length (nodes (stop_current w)) = length (nodes w) /\
  forall i n, nodes (stop_current w) !! i = Some n ->
    exists n0, nodes w !! i = Some n0 /\ node_buffer n = node_buffer n0 /\
      (node_state n = playing -> node_state n0 = playing /\ audioSourceRef w <> Some i).
Proof.
  assert (Hsame : forall i n, nodes w !! i = Some n ->
            (node_state n = playing -> audioSourceRef w <> Some i) ->
            exists n0, nodes w !! i = Some n0 /\ node_buffer n = node_buffer n0 /\
              (node_state n = playing ->
               node_state n0 = playing /\ audioSourceRef w <> Some i)).
  { intros i n Hn Hp. exists n. auto. }
  unfold stop_current, source_stop.
  destruct (audioSourceRef w) as [r|] eqn:Href.
  2:{ split_and!; try reflexivity; try assumption.
      intros i n Hn. apply Hsame; [exact Hn | discriminate]. }
  destruct (nodes w !! r) as [nr|] eqn:Hr.
  2:{ split_and!; try reflexivity; try assumption.
      intros i n Hn. apply Hsame; [exact Hn | congruence]. }
  destruct (node_state nr) eqn:Hs; simpl.
  - split_and!; try reflexivity; try assumption.
    intros i n Hn. apply Hsame; [exact Hn | congruence].
  - split_and!; try reflexivity; try assumption.
    + apply length_insert.
    + intros i n Hn. apply list_lookup_insert_Some in Hn as [(-> & <- & _) | (Hne & Hn)].
      * exists nr. simpl. split_and!; auto; discriminate.
      * apply Hsame; [exact Hn | congruence].
  - split_and!; try reflexivity; try assumption.
    intros i n Hn. apply Hsame; [exact Hn | congruence].
Qed.

Lemma stop_current_silences (w : World) :
  playback_inv w -> active_handles (stop_current w) = [].
Proof.
  intros Hinv. apply elem_of_nil_inv. intros i Hi.
  apply elem_of_active_handles in Hi as (n & Hn & Hp).
  destruct (stop_current_spec w) as (_ & _ & _ & _ & _ & _ & _ & _ & Hnodes).
  destruct (Hnodes i n Hn) as (n0 & Hn0 & _ & Hplay).
  destruct (Hplay Hp) as [Hp0 Href].
  apply Href, Hinv, elem_of_active_handles. eauto.
Qed.

(** Stopping twice is stopping once. *)
Lemma stop_current_idempotent (w : World) :
  stop_current (stop_current w) = stop_current w.
Proof.
  unfold stop_current, source_stop.
  destruct (audioSourceRef w) as [r|] eqn:Href; [|now rewrite Href].
  destruct (nodes w !! r) as [nr|] eqn:Hr; [|now rewrite Href, Hr].
  destruct (node_state nr) eqn:Hs; simpl.
  - now rewrite Href, Hr, Hs.
  - rewrite Href. rewrite list_lookup_insert_eq by (eapply lookup_lt_Some; eauto).
    reflexivity.
  - now rewrite Href, Hr, Hs.
Qed.

Lemma insert_last {A : Type} (l : list A) (x y : A) :
  <[length l := x]> (l ++ [y])%list = (l ++ [x])%list.
Proof.
  rewrite insert_app_r_alt by lia. now rewrite Nat.sub_diag.
Qed.

Lemma playNarration_spec (buffer : AudioBuffer) (w : World) :
  audioContextRef w <> None ->
  nodes (playNarration buffer w) = (nodes (stop_current w) ++ [mkNode buffer playing])%list /\
  audioSourceRef (playNarration buffer w) = Some (length (nodes w)) /\
  audioContextRef (playNarration buffer w) = audioContextRef w /\
  state (playNarration buffer w) = state w /\
  commits (playNarration buffer w) = commits w /\
  calls (playNarration buffer w) = calls w.
Proof.
  intros Hctx. unfold playNarration.
  destruct (audioContextRef w) as [ctx|] eqn:Hc; [|congruence].
  destruct (stop_current_spec w) as (Hst & Hac & _ & _ & _ & Hcm & Hcl & Hlen & _).
  unfold createBufferSource, source_start. simpl.
  rewrite list_lookup_middle by reflexivity. simpl.
  rewrite insert_last.
  rewrite Hlen, Hst, Hcm, Hcl, Hac, Hc. repeat split; reflexivity.
Qed.

Lemma playNarration_single_handle (buffer : AudioBuffer) (w : World) :
  playback_ready w ->
  active_handles (playNarration buffer w) = [length (nodes w)] /\
  nodes (playNarration buffer w) !! length (nodes w) = Some (mkNode buffer playing) /\
  audioSourceRef (playNarration buffer w) = Some (length (nodes w)) /\
  playback_ready (playNarration buffer w).
Proof.
  intros [Hinv Hctx].
  destruct (playNarration_spec buffer w Hctx) as (Hn & Hr & Hc & _).
  destruct (stop_current_spec w) as (_ & _ & _ & _ & _ & _ & _ & Hlen & _).
  assert (Hact : active_handles (playNarration buffer w) = [length (nodes w)]).
  { unfold active_handles. rewrite Hn, playing_from_app.
    change (playing_from 0 (nodes (stop_current w))) with (active_handles (stop_current w)).
    rewrite stop_current_silences by assumption. simpl. now rewrite Hlen. }
  split; [exact Hact|]. split; [|split; [exact Hr|]].
  - rewrite Hn. apply list_lookup_middle. now rewrite Hlen.
  - split; [|congruence].
    intros i Hi. rewrite Hact in Hi. apply list_elem_of_singleton in Hi. now subst.
Qed.

Lemma stop_current_not_playing (w : World) (i : nat) (n : SourceNode) :
  audioSourceRef w = Some i ->
  nodes w !! i = Some n ->
  node_state n <> playing ->
  stop_current w = w.
Proof.
  intros Href Hn Hs. unfold stop_current, source_stop. rewrite Href, Hn.
  destruct (node_state n); [reflexivity | congruence | reflexivity].
Qed.

Lemma stop_current_playing (w : World) (i : nat) (n : SourceNode) :
  audioSourceRef w = Some i ->
  nodes w !! i = Some n ->
  node_state n = playing ->
  nodes (stop_current w) = <[i := mkNode (node_buffer n) finished]> (nodes w).
Proof.
  intros Href Hn Hs. unfold stop_current, source_stop. now rewrite Href, Hn, Hs.
Qed.

(** C7.  With the audio context in place and at most the current handle
    playing, [playNarration a] followed by [playNarration b] leaves exactly
    one playing handle, bound to [b], held by [audioSourceRef]; the handle
    started for [a] has been stopped.  The handle current at the start may be
    playing, finished or never started: stopping it raises nothing that
    leaves [playNarration], and changes nothing unless it was playing. *)
Theorem play_interrupts (a b : AudioBuffer) (w : World) :
  playback_ready w ->
  let w' := playNarration b (playNarration a w) in
  (exists handle,
      active_handles w' = [handle] /\
      nodes w' !! handle = Some (mkNode b playing) /\
      audioSourceRef w' = Some handle) /\
  nodes w' !! length (nodes w) = Some (mkNode a finished) /\
  state w' = state w /\
  (forall i n,
      audioSourceRef w = Some i -> nodes w !! i = Some n ->
      node_state n <> playing -> stop_current w = w) /\
  (forall i n,
      audioSourceRef w = Some i -> nodes w !! i = Some n ->
      node_state n = unstarted -> exists e, source_stop i w = inl e).
Proof.
  intros Hready w'. subst w'.
  destruct (playNarration_single_handle a w Hready) as (Ha & Hna & Hra & Hready').
  destruct (playNarration_single_handle b _ Hready') as (Hb & Hnb & Hrb & _).
  destruct Hready as [Hinv Hctx]. destruct Hready' as [Hinv' Hctx'].
  destruct (playNarration_spec a w Hctx) as (Hnodes_a & _ & _ & Hst_a & _).
  destruct (playNarration_spec b _ Hctx') as (Hnodes_b & _ & _ & Hst_b & _).
  destruct (stop_current_spec w) as (_ & _ & _ & _ & _ & _ & _ & Hlen & _).
  split_and!.
  - eexists. split_and!; eassumption.
  - rewrite Hnodes_b.
    rewrite (stop_current_playing _ _ _ Hra Hna eq_refl). simpl.
    rewrite lookup_app_l.
    + apply list_lookup_insert_eq. rewrite Hnodes_a, length_app. simpl. lia.
    + rewrite length_insert, Hnodes_a, length_app. simpl. lia.
  - now rewrite Hst_b, Hst_a.
  - intros i n. apply stop_current_not_playing.
  - intros i n Href Hn Hs. unfold source_stop. rewrite Hn, Hs. eauto.
Qed.

(** ** Reset *)

Lemma triggerHaptic_spec (intensity : list Z) (w : World) :
  state (triggerHaptic intensity w) = state w /\
  audioContextRef (triggerHaptic intensity w) = audioContextRef w /\
  audioSourceRef (triggerHaptic intensity w) = audioSourceRef w /\
  nodes (triggerHaptic intensity w) = nodes w /\
  commits (triggerHaptic intensity w) = commits w /\
  calls (triggerHaptic intensity w) = calls w.
Proof. unfold triggerHaptic. destruct (has_vibrate w); repeat split; reflexivity. Qed.

Lemma playback_inv_ext (w w' : World) :
  nodes w' = nodes w -> audioSourceRef w' = audioSourceRef w ->
  playback_inv w -> playback_inv w'.
Proof.
  intros Hn Hr Hinv i Hi. unfold active_handles in Hi. rewrite Hn in Hi.
  rewrite Hr. now apply Hinv.
Qed.

Lemma stop_current_nodes (w w' : World) :
  nodes w' = nodes w -> audioSourceRef w' = audioSourceRef w ->
  nodes (stop_current w') = nodes (stop_current w).
Proof.
  intros Hn Hr. unfold stop_current, source_stop. rewrite Hr, Hn.
  destruct (audioSourceRef w) as [r|]; [|exact Hn].
  destruct (nodes w !! r) as [nr|]; [|exact Hn].
  destruct (node_state nr); simpl; rewrite ?Hn; reflexivity.
Qed.

Lemma resetTour_components (w : World) :
  state (resetTour w) = initialState /\
  commits (resetTour w) = (commits w ++ [initialState])%list /\
  nodes (resetTour w) = nodes (stop_current w) /\
  audioSourceRef (resetTour w) = audioSourceRef w /\
  audioContextRef (resetTour w) = audioContextRef w /\
  calls (resetTour w) = calls w.
Proof.
  unfold resetTour, triggerHaptic, setState.
  destruct (stop_current_spec w) as (Hst & Hac & Hsr & _ & _ & Hcm & Hcl & _).
  destruct (has_vibrate w) eqn:Hv; simpl.
  - assert (Heq : stop_current (with_vibrations w (vibrations w ++ [[20]]))
                  = with_vibrations (stop_current w) (vibrations w ++ [[20]])).
    { unfold stop_current, source_stop. simpl.
      destruct (audioSourceRef w) as [r|]; [|reflexivity].
      destruct (nodes w !! r) as [nr|]; [|reflexivity].
      destruct (node_state nr); reflexivity. }
    rewrite Heq. simpl. rewrite Hcm, Hsr, Hac, Hcl. repeat split; reflexivity.
  - rewrite Hcm, Hsr, Hac, Hcl. repeat split; reflexivity.
Qed.

Lemma resetTour_silences (w : World) :
  playback_inv w -> active_handles (resetTour w) = [].
Proof.
  intros Hinv. destruct (resetTour_components w) as (_ & _ & Hn & _).
  unfold active_handles. rewrite Hn. now apply stop_current_silences.
Qed.

Lemma resetTour_twice (w : World) :
  state (resetTour (resetTour w)) = state (resetTour w) /\
  nodes (resetTour (resetTour w)) = nodes (resetTour w) /\
  audioSourceRef (resetTour (resetTour w)) = audioSourceRef (resetTour w) /\
  audioContextRef (resetTour (resetTour w)) = audioContextRef (resetTour w).
Proof.
  destruct (resetTour_components w) as (Hs & _ & Hn & Hr & Hc & _).
  destruct (resetTour_components (resetTour w)) as (Hs' & _ & Hn' & Hr' & Hc' & _).
  split_and!; try congruence.
  rewrite Hn', Hn.
  assert (Hstop : nodes (stop_current (resetTour w)) = nodes (stop_current (stop_current w))).
  { destruct (stop_current_spec w) as (_ & _ & Hsr & _).
    apply stop_current_nodes; congruence. }
  now rewrite Hstop, stop_current_idempotent.
Qed.

(** ** What every reachable system satisfies *)

Lemma preserves_bind (I : World -> Prop) {A B : Type} (m : Async A) (f : A -> Async B) :
  preserves I m -> (forall a, preserves I (f a)) -> preserves I (bind m f).
Proof.
  intros Hm Hf. induction Hm; simpl; try constructor; auto.
Qed.

Lemma preserves_try_catch (I : World -> Prop) {A : Type} (m : Async A)
    (h : Exn -> Async A) :
  preserves I m -> (forall e, preserves I (h e)) -> preserves I (try_catch m h).
Proof.
  intros Hm Hh. induction Hm; simpl; try constructor; auto.
Qed.

Lemma preserves_await (I : World -> Prop) (c : Call) : preserves I (await c).
Proof. constructor. intros [e|v]; constructor. Qed.

Lemma preserves_eval (I : World -> Prop) {A : Type} (r : Exn + A) : preserves I (eval r).
Proof. destruct r; constructor. Qed.

Lemma preserves_exec (I : World -> Prop) (f : World -> World) :
  (forall w, I w -> I (f w)) -> preserves I (exec f).
Proof. intros Hf. constructor; [exact Hf | constructor]. Qed.

Lemma preserves_identifyLandmark (I : World -> Prop) (base64 : string) :
  preserves I (identifyLandmark base64).
Proof.
  unfold identifyLandmark. apply preserves_bind; [apply preserves_await|].
  intros response. destruct (JSON_parse _); constructor.
Qed.

Lemma preserves_researchLandmark (I : World -> Prop) (name : jsval) :
  preserves I (researchLandmark name).
Proof.
  unfold researchLandmark. apply preserves_bind; [apply preserves_eval|].
  intros s. apply preserves_bind; [apply preserves_await|].
  intros response. apply preserves_bind; [apply preserves_eval|].
  intros srcs. constructor.
Qed.

Lemma preserves_narrateHistory (I : World -> Prop) (story : string) :
  preserves I (narrateHistory story).
Proof.
  unfold narrateHistory. apply preserves_bind; [apply preserves_await|].
  intros response. destruct (negb _); constructor.
Qed.

Lemma playback_ready_ext (w w' : World) :
  nodes w' = nodes w -> audioSourceRef w' = audioSourceRef w ->
  audioContextRef w' = audioContextRef w ->
  playback_ready w -> playback_ready w'.
Proof.
  intros Hn Hr Hc [Hinv Hctx]. split; [eapply playback_inv_ext; eauto | congruence].
Qed.

Lemma playback_ready_setState (f : TourState -> TourState) (w : World) :
  playback_ready w -> playback_ready (setState f w).
Proof. apply playback_ready_ext; reflexivity. Qed.

Lemma playback_ready_log_call (c : Call) (w : World) :
  playback_ready w -> playback_ready (log_call c w).
Proof. apply playback_ready_ext; reflexivity. Qed.

Lemma preserves_pipeline (file : File) :
  preserves playback_ready (try_catch (pipeline file) on_error).
Proof.
  apply preserves_try_catch.
  2:{ intros e. apply preserves_exec. intros w. apply playback_ready_setState. }
  unfold pipeline.
  repeat first
    [ apply preserves_await
    | apply preserves_eval
    | apply preserves_identifyLandmark
    | apply preserves_researchLandmark
    | apply preserves_narrateHistory
    | apply preserves_exec; intros w;
        first [ apply playback_ready_setState
              | intros Hw; apply (playNarration_single_handle _ _ Hw) ]
    | apply preserves_bind; [|intros ?]
    | constructor; intros ? ].
Qed.

Lemma advance_preserves (I : World -> Prop) {A : Type} (m : Async A) (w : World) :
  (forall c w0, I w0 -> I (log_call c w0)) ->
  preserves I m -> I w ->
  I (fst (advance m w)) /\
  match snd (advance m w) with
  | Blocked c k => forall r, preserves I (k r)
  | Finished _ => True
  end.
Proof.
  intros Hlog Hm. revert w. induction Hm; intros w Hw; simpl; auto.
Qed.

Lemma playback_ready_entered (w : World) : playback_inv w -> playback_ready (entered w).
Proof.
  intros Hinv. split.
  - revert Hinv. apply playback_inv_ext.
    + unfold entered, initAudioContext, triggerHaptic, setState.
      destruct (has_vibrate w); simpl; destruct (audioContextRef w); reflexivity.
    + unfold entered, initAudioContext, triggerHaptic, setState.
      destruct (has_vibrate w); simpl; destruct (audioContextRef w); reflexivity.
  - now rewrite audioContextRef_entered.
Qed.

Lemma spawn_inv (m : Async unit) (s : System) :
  preserves playback_ready m ->
  playback_ready (world s) ->
  (forall t r, t ∈ tasks s -> preserves playback_ready (continuation t r)) ->
  system_inv (spawn m s).
Proof.
  intros Hm Hw Ht.
  destruct (advance_preserves playback_ready m (world s) playback_ready_log_call Hm Hw)
    as [Hw' Hk].
  unfold spawn. destruct (advance m (world s)) as [w' [r|c k]]; simpl in *.
  - split; simpl; [apply Hw' | intros Hc; now destruct Hw' | exact Ht].
  - split; simpl; [apply Hw' | intros Hc; now destruct Hw' |].
    intros t r Hin. apply elem_of_app in Hin as [Hin | Hin]; [now apply Ht|].
    apply list_elem_of_singleton in Hin. subst t. apply Hk.
Qed.

Lemma step_inv (s s' : System) : system_inv s -> step s s' -> system_inv s'.
Proof.
  intros [Hpb Hctx Htasks] Hstep. destruct Hstep as [file s _ | s _ | buffer s _ | env i s | i s].
  - destruct file as [file|].
    + unfold upload, spawn, handleFileUpload.
      change (advance _ (world s))
        with (advance (try_catch (pipeline file) on_error) (entered (world s))).
      apply (spawn_inv (try_catch (pipeline file) on_error)
                       (mkSystem (entered (world s)) (tasks s)));
        [apply preserves_pipeline | now apply playback_ready_entered | exact Htasks].
    + split; assumption.
  - destruct (resetTour_components (world s)) as (Hst & _ & _ & _ & Hc & _).
    unfold reset. split; cbn [world tasks].
    + intros i Hi. rewrite resetTour_silences in Hi by assumption. inversion Hi.
    + rewrite Hc, Hst. intros Hnone. split; [now apply Hctx | reflexivity].
    + exact Htasks.
  - destruct (audioContextRef (world s)) as [ctx|] eqn:Hc.
    + assert (Hready : playback_ready (world s)) by (split; [assumption | congruence]).
      destruct (playNarration_single_handle buffer _ Hready) as (_ & _ & _ & [Hinv' Hc']).
      unfold replay. split; cbn [world tasks];
        [exact Hinv' | intros Hnone; contradiction | exact Htasks].
    + assert (Hid : playNarration buffer (world s) = world s)
        by (unfold playNarration; now rewrite Hc).
      unfold replay. rewrite Hid. split; cbn [world tasks];
        [assumption | rewrite Hc; exact Hctx | exact Htasks].
  - unfold settle. destruct (tasks s !! i) as [t|] eqn:Ht; [|split; assumption].
    assert (Hin : t ∈ tasks s) by (eapply list_elem_of_lookup_2; eauto).
    apply spawn_inv; simpl.
    + now apply Htasks.
    + split; [assumption|]. intros Hnone. destruct (Hctx Hnone) as [Hnil _].
      rewrite Hnil in Hin. inversion Hin.
    + intros t' r Hin'. apply Htasks. eapply list_elem_of_delete_inv; eauto.
  - unfold playback_ends.
    destruct (nodes (world s) !! i) as [n|] eqn:Hn; [|split; assumption].
    destruct (node_state n) eqn:Hs; try (split; assumption).
    split; simpl; [|exact Hctx | exact Htasks].
    intros j Hj. apply elem_of_active_handles in Hj as (nj & Hnj & Hpj). simpl in *.
    apply list_lookup_insert_Some in Hnj as [(-> & <- & _) | (Hne & Hnj)];
      [discriminate|].
    apply Hpb, elem_of_active_handles. eauto.
Qed.

Lemma reachable_inv (vibrate : bool) (s : System) : reachable vibrate s -> system_inv s.
Proof.
  induction 1 as [|s s' _ IH Hstep]; [|eapply step_inv; eauto].
  split; simpl.
  - intros i Hi. inversion Hi.
  - auto.
  - intros t r Hin. inversion Hin.
Qed.

(** C8.  In every reachable system [resetTour] stops whatever is playing and
    writes the whole initial aggregate with a single [setState]; the handler
    is synchronous, so nothing can observe a state in between.  A second
    [resetTour] right after the first leaves the state, the nodes and both
    refs as the first left them. *)
Theorem reset_restores_initial_state (vibrate : bool) (s : System) :
  reachable vibrate s ->
  state (world (reset s))
  = {| image := None; landmark := JNull; history := None; audioBuffer := None;
       loadingStage := idle; error := None |} /\
  active_handles (world (reset s)) = [] /\
  commits (world (reset s)) = (commits (world s) ++ [initialState])%list /\
  state (world (reset (reset s))) = state (world (reset s)) /\
  nodes (world (reset (reset s))) = nodes (world (reset s)) /\
  audioSourceRef (world (reset (reset s))) = audioSourceRef (world (reset s)) /\
  audioContextRef (world (reset (reset s))) = audioContextRef (world (reset s)).
Proof.
  intros Hreach. apply reachable_inv in Hreach as [Hinv _ _].
  destruct (resetTour_components (world s)) as (Hst & Hcm & _).
  destruct (resetTour_twice (world s)) as (H1 & H2 & H3 & H4).
  unfold reset; cbn [world tasks].
  split_and!; try assumption.
  now apply resetTour_silences.
Qed.


(** ** Runs interleaved with other handlers *)

Ltac sys_step :=
  cbn [advance handleFileUpload exec bind try_catch pipeline await eval world tasks
       app lookup list_lookup delete list_delete continuation awaited
       identifyLandmark researchLandmark fst snd map list_fmap fmap].

Lemma pipeline_segments (file : File) :
  pipeline file = bind (await (fileToBase64 file)) after_read.
Proof. reflexivity. Qed.

Lemma upload_blocks (file : File) (w : World) :
  advance (handleFileUpload (Some file)) w
  = (log_call (fileToBase64 file) (entered w),
     Blocked (fileToBase64 file)
       (fun r => try_catch (bind (eval r) after_read) on_error)).
Proof. reflexivity. Qed.

Lemma read_blocks (base64 : string) (w : World) :
  exists k,
    advance (try_catch (after_read base64) on_error) w
    = (log_call (generateContent (identifyRequest base64))
         (setState (fun prev =>
            {| image := Some ("data:image/jpeg;base64," ++ base64);
               landmark := landmark prev; history := history prev;
               audioBuffer := audioBuffer prev; loadingStage := loadingStage prev;
               error := error prev |}) w),
       Blocked (generateContent (identifyRequest base64)) k) /\
    forall response lm,
      JSON_parse (JsString.or_else (text response) "{}") = Some lm ->
      k (inr response) = try_catch (after_identify lm) on_error.
Proof.
  eexists. split; [reflexivity|].
  intros response lm Hparse. cbn [eval bind try_catch]. now rewrite Hparse.
Qed.

Lemma identify_blocks (lm : json number) (name : jsval) (name_text : string) (w : World) :
  get_name lm = inr name ->
  template name = inr name_text ->
  exists k,
    advance (try_catch (after_identify lm) on_error) w
    = (log_call (generateContent (researchRequest (researchPrompt name_text)))
         (setState (fun prev =>
            {| image := image prev; landmark := lm; history := history prev;
               audioBuffer := audioBuffer prev; loadingStage := researching;
               error := error prev |}) w),
       Blocked (generateContent (researchRequest (researchPrompt name_text))) k).
Proof.
  intros Hname Htext. unfold after_identify, researchLandmark.
  rewrite Hname. cbn [eval bind exec]. rewrite Htext. eexists. reflexivity.
Qed.

Lemma spawn_blocked (m : Async unit) (s : System) (w' : World) (c : Call)
    (k : Exn + Reply c -> Async unit) :
  advance m (world s) = (w', Blocked c k) ->
  spawn m s = mkSystem w' (tasks s ++ [mkTask c k]).
Proof. intros H. unfold spawn. now rewrite H. Qed.

Lemma settle_single (env : Env) (w : World) (c : Call) (k : Exn + Reply c -> Async unit) :
  settle env 0 (mkSystem w [mkTask c k]) = spawn (k (env c)) (mkSystem w []).
Proof. reflexivity. Qed.

(** The system once the file of a lone run has been read and the
    identification call is awaited. *)
Lemma identifying_after_read (env : Env) (file : File) (w : World) (base64 : string) :
  env (fileToBase64 file) = inr base64 ->
  exists k,
    settle env 0 (upload (Some file) (mkSystem w []))
    = mkSystem
        (log_call (generateContent (identifyRequest base64))
           (setState (fun prev =>
              {| image := Some ("data:image/jpeg;base64," ++ base64);
                 landmark := landmark prev; history := history prev;
                 audioBuffer := audioBuffer prev; loadingStage := loadingStage prev;
                 error := error prev |})
              (log_call (fileToBase64 file) (entered w))))
        [mkTask (generateContent (identifyRequest base64)) k] /\
    forall response lm,
      JSON_parse (JsString.or_else (text response) "{}") = Some lm ->
      k (inr response) = try_catch (after_identify lm) on_error.
Proof.
  intros Hfile.
  destruct (read_blocks base64 (log_call (fileToBase64 file) (entered w))) as (k & Hk & Hparse).
  exists k. split; [|exact Hparse].
  unfold upload.
  rewrite (spawn_blocked _ (mkSystem w []) _ _ _ (upload_blocks file w)).
  cbn [tasks app]. rewrite settle_single, Hfile.
  cbn beta. cbn [eval bind try_catch].
  now rewrite (spawn_blocked _ (mkSystem _ []) _ _ _ Hk).
Qed.

(** [handleFileUpload] does not look at [loadingStage]: in any system it
    puts the stage to [identifying], clears [image] and [error] and suspends
    on the file read, next to the runs in flight; without a file it does
    nothing.  The file input is rendered exactly while the stage is
    [idle]. *)
Lemma upload_has_no_stage_guard (s : System) (file : File) :
  state (world (upload (Some file) s))
  = {| image := None; landmark := landmark (state (world s));
       history := history (state (world s));
       audioBuffer := audioBuffer (state (world s));
       loadingStage := identifying; error := None |} /\
  (exists k, tasks (upload (Some file) s)
             = (tasks s ++ [mkTask (fileToBase64 file) k])%list) /\
  calls (world (upload (Some file) s)) = (calls (world s) ++ [fileToBase64 file])%list /\
  upload None s = s /\
  (upload_rendered (state (world s)) = true <-> loadingStage (state (world s)) = idle).
Proof.
  unfold upload, spawn. sys_step.
  change (initAudioContext (setState _ (triggerHaptic _ (world s))))
    with (entered (world s)).
  split_and!.
  - exact (state_entered (world s)).
  - eexists. reflexivity.
  - cbn [calls log_call with_calls]. now rewrite calls_entered.
  - now destruct s.
  - unfold upload_rendered, is_idle. destruct (loadingStage (state (world s))); split;
      congruence.
Qed.

(** C5, as the code has it.  A run carries no identifier and [resetTour]
    leaves the suspended runs where they are.  When the identification
    response of a run arrives after a reset, its continuation is applied to
    the state the reset wrote: [landmark] is stored, the stage becomes
    [researching] and the research call is made. *)
Theorem stale_response_is_applied (env : Env) (file : File) (w : World)
    (base64 : string) (response : GenerateContentResponse) (lm : json number)
    (name : jsval) (name_text : string) :
  env (fileToBase64 file) = inr base64 ->
  env (generateContent (identifyRequest base64)) = inr response ->
  JSON_parse (JsString.or_else (text response) "{}") = Some lm ->
  get_name lm = inr name ->
  template name = inr name_text ->
  let running := settle env 0 (upload (Some file) (mkSystem w [])) in
  let late := settle env 0 (reset running) in
  map awaited (tasks running) = [generateContent (identifyRequest base64)] /\
  state (world (reset running)) = initialState /\
  tasks (reset running) = tasks running /\
  state (world late)
  = {| image := None; landmark := lm; history := None; audioBuffer := None;
       loadingStage := researching; error := None |} /\
  map awaited (tasks late) = [generateContent (researchRequest (researchPrompt name_text))].
Proof.
  intros Hfile Hresp Hparse Hname Htext running late. subst late running.
  destruct (identifying_after_read env file w base64 Hfile) as (k & -> & Hk).
  unfold reset. cbn [world tasks map].
  destruct (resetTour_components
              (log_call (generateContent (identifyRequest base64))
                 (setState (fun prev =>
                    {| image := Some ("data:image/jpeg;base64," ++ base64);
                       landmark := landmark prev; history := history prev;
                       audioBuffer := audioBuffer prev;
                       loadingStage := loadingStage prev; error := error prev |})
                    (log_call (fileToBase64 file) (entered w)))))
    as (Hstate & _).
  set (wr := resetTour _) in *.
  destruct (identify_blocks lm name name_text wr Hname Htext) as (k' & Hk').
  rewrite settle_single, Hresp, (Hk _ _ Hparse).
  rewrite (spawn_blocked _ (mkSystem wr []) _ _ _ Hk').
  cbn [world tasks app map awaited state log_call setState with_calls with_state].
  rewrite Hstate. split_and!; reflexivity.
Qed.

(** A response whose text is not JSON fails the identification stage: the
    stage goes back to [idle], [error] is the parse message, the research
    call is not made.  A response that parses to an object whose name can be
    converted to text is not checked against the required fields: the object
    is stored as the landmark, the stage becomes [researching] and the
    research call is made with that text ([undefined] when the field is
    absent). *)
Lemma identification_payload_handling (env : Env) (file : File) (w : World)
    (base64 : string) (response : GenerateContentResponse) :
  env (fileToBase64 file) = inr base64 ->
  env (generateContent (identifyRequest base64)) = inr response ->
  (JSON_parse (JsString.or_else (text response) "{}") = None ->
   let final := run env (handleFileUpload (Some file)) w in
   loadingStage (state (fst final)) = idle /\
   error (state (fst final)) = Some "Failed to parse landmark identification data." /\
   landmark (state (fst final)) = landmark (state w) /\
   calls (fst final)
   = (calls w ++ [fileToBase64 file; generateContent (identifyRequest base64)])%list) /\
  (forall fields name_text,
      JSON_parse (JsString.or_else (text response) "{}") = Some (JObj fields) ->
      template (lookup_field "name" fields) = inr name_text ->
      let s3 := settle env 0 (settle env 0 (upload (Some file) (mkSystem w []))) in
      state (world s3)
      = {| image := Some ("data:image/jpeg;base64," ++ base64);
           landmark := JObj fields; history := history (state w);
           audioBuffer := audioBuffer (state w);
           loadingStage := researching; error := None |} /\
      map awaited (tasks s3)
      = [generateContent (researchRequest (researchPrompt name_text))]).
Proof.
  intros Hfile Hresp. split.
  - intros Hparse final.
    destruct (identification_failure_run env file base64 w
                [generateContent (identifyRequest base64)]
                (Error "Failed to parse landmark identification data.") Hfile)
      as (_ & Hst & Hcalls).
    { intros w0. exact (run_identifyLandmark_unparsable env base64 response w0 Hresp Hparse). }
    subst final. rewrite Hst, Hcalls. split_and!; reflexivity.
  - intros fields name_text Hparse Htext s3. subst s3.
    destruct (identifying_after_read env file w base64 Hfile) as (k & -> & Hk).
    match goal with
    | |- context [settle env 0 (mkSystem ?w0 _)] => set (wi := w0)
    end.
    destruct (identify_blocks (JObj fields) (lookup_field "name" fields) name_text wi
                eq_refl Htext) as (k' & Hk').
    rewrite settle_single, Hresp, (Hk _ _ Hparse).
    rewrite (spawn_blocked _ (mkSystem wi []) _ _ _ Hk').
    subst wi.
    cbn [world tasks app map awaited state log_call setState with_calls with_state].
    rewrite state_entered. split; reflexivity.
Qed.

(** Whenever the page offers the replay button, the controller is ready. *)
Lemma reachable_replay_ready (vibrate : bool) (s : System) (buffer : AudioBuffer) :
  reachable vibrate s ->
  replay_rendered (state (world s)) = Some buffer ->
  playback_ready (world s).
Proof.
  intros Hreach Hreplay. apply reachable_inv in Hreach as [Hinv Hctx _].
  split; [exact Hinv|]. intros Hnone. destruct (Hctx Hnone) as [_ Hbuf].
  unfold replay_rendered in Hreplay. destruct (is_idle _); congruence.
Qed.

End Properties.

(** * Further properties of the code *)

Section Coverage.

Context {P : Platform}.

(** ** Stage functions leave the component alone *)

Lemma run_preserves (I : World -> Prop) {A : Type} (env : Env) (m : Async A) (w : World) :
  (forall c w0, I w0 -> I (log_call c w0)) ->
  preserves I m -> I w -> I (fst (run env m w)).
Proof.
  intros Hlog Hm. revert w. induction Hm; intros w Hw; simpl; auto.
Qed.

Lemma run_leaves_cells {A : Type} (env : Env) (m : Async A) (w : World) :
  leaves_cells m -> same_cells w (fst (run env m w)).
Proof.
  intros Hm. apply (run_preserves (same_cells w)).
  - intros c w0 H. exact H.
  - apply Hm.
  - unfold same_cells. split_and!; reflexivity.
Qed.

Lemma leaves_cells_identifyLandmark (base64 : string) :
  leaves_cells (identifyLandmark base64).
Proof. intros I. apply preserves_identifyLandmark. Qed.

Lemma leaves_cells_researchLandmark (name : jsval) : leaves_cells (researchLandmark name).
Proof. intros I. apply preserves_researchLandmark. Qed.

Lemma leaves_cells_narrateHistory (story : string) : leaves_cells (narrateHistory story).
Proof. intros I. apply preserves_narrateHistory. Qed.

Lemma playNarration_cells (buffer : AudioBuffer) (w : World) :
  state (playNarration buffer w) = state w /\
  commits (playNarration buffer w) = commits w /\
  calls (playNarration buffer w) = calls w /\
  audioContextRef (playNarration buffer w) = audioContextRef w /\
  has_vibrate (playNarration buffer w) = has_vibrate w /\
  vibrations (playNarration buffer w) = vibrations w.
Proof.
  destruct (audioContextRef w) as [ctx|] eqn:Hc.
  - assert (Hne : audioContextRef w <> None) by congruence.
    destruct (playNarration_spec buffer w Hne) as (_ & _ & Hc' & Hst & Hcm & Hcl).
    rewrite <- Hc. split_and!; try assumption.
    + unfold playNarration. rewrite Hc.
      destruct (stop_current_spec w) as (_ & _ & _ & _ & Hv & _).
      unfold createBufferSource, source_start. simpl.
      rewrite list_lookup_middle by reflexivity. simpl. exact Hv.
    + unfold playNarration. rewrite Hc.
      destruct (stop_current_spec w) as (_ & _ & _ & Hv & _).
      unfold createBufferSource, source_start. simpl.
      rewrite list_lookup_middle by reflexivity. simpl. exact Hv.
  - unfold playNarration. rewrite Hc. split_and!; try reflexivity. exact Hc.
Qed.

Lemma entered_cells (w : World) :
  nodes (entered w) = nodes w /\
  audioSourceRef (entered w) = audioSourceRef w /\
  commits (entered w) = (commits w ++ [state (entered w)])%list.
Proof.
  unfold entered, initAudioContext, triggerHaptic, setState.
  destruct (has_vibrate w); simpl; destruct (audioContextRef w) eqn:E; simpl;
    rewrite ?E; split_and!; reflexivity.
Qed.

(** ** Every run settles *)

Lemma after_decode_ends_ready (env : Env) (buffer : AudioBuffer) (w : World) :
  ends_ready w (run env (after_decode buffer) w).
Proof.
  unfold after_decode. rewrite run_bind, run_exec, run_exec. unfold ends_ready.
  destruct (playNarration_cells buffer
              (setState (fun prev =>
                 {| image := image prev; landmark := landmark prev;
                    history := history prev; audioBuffer := Some buffer;
                    loadingStage := ready; error := error prev |}) w))
    as (Hst & _).
  rewrite Hst. simpl. split_and!; [reflexivity | reflexivity | discriminate].
Qed.

Lemma ends_ready_from (w0 w : World) (res : World * (Exn + unit)) :
  error (state w) = error (state w0) -> ends_ready w res -> ends_ready w0 res.
Proof.
  intros He. unfold ends_ready. destruct res as [w' [e|a]]; [auto|].
  intros (H1 & H2 & H3). split_and!; congruence.
Qed.

Lemma after_narrate_ends_ready (env : Env) (audio : string) (w : World) :
  ends_ready w (run env (after_narrate audio) w).
Proof.
  unfold after_narrate. rewrite run_bind, run_eval.
  destruct (decodeBase64 audio) as [e|bytes]; [exact I|].
  rewrite run_bind. cbn [run].
  rewrite run_bind, run_await.
  destruct (env (decodeAudioData bytes (audioContextRef w))) as [e|buffer]; [exact I|].
  apply (ends_ready_from _ (log_call (decodeAudioData bytes (audioContextRef w)) w));
    [reflexivity|].
  apply after_decode_ends_ready.
Qed.

Lemma after_research_ends_ready (env : Env) (lm : json number) (h : DetailedHistory)
    (w : World) :
  ends_ready w (run env (after_research lm h) w).
Proof.
  unfold after_research. rewrite run_bind, run_exec, run_bind, run_eval.
  destruct (get_name lm) as [e|name]; [exact I|].
  rewrite run_bind, run_eval.
  destruct (template name) as [e|name_text]; [exact I|].
  rewrite run_bind.
  match goal with
  | |- context [run env (narrateHistory ?t) ?w1] =>
      pose proof (run_leaves_cells env (narrateHistory t) w1
                    (leaves_cells_narrateHistory t)) as (Hst & _);
      destruct (run env (narrateHistory t) w1) as [w2 [e|audio]]; [exact I|]
  end.
  simpl in Hst.
  apply (ends_ready_from _ w2); [now rewrite Hst|].
  apply after_narrate_ends_ready.
Qed.

Lemma after_identify_ends_ready (env : Env) (lm : json number) (w : World) :
  ends_ready w (run env (after_identify lm) w).
Proof.
  unfold after_identify. rewrite run_bind, run_exec, run_bind, run_eval.
  destruct (get_name lm) as [e|name]; [exact I|].
  rewrite run_bind.
  match goal with
  | |- context [run env (researchLandmark ?n) ?w1] =>
      pose proof (run_leaves_cells env (researchLandmark n) w1
                    (leaves_cells_researchLandmark n)) as (Hst & _);
      destruct (run env (researchLandmark n) w1) as [w2 [e|h]]; [exact I|]
  end.
  simpl in Hst.
  apply (ends_ready_from _ w2); [now rewrite Hst|].
  apply after_research_ends_ready.
Qed.

Lemma pipeline_ends_ready (env : Env) (file : File) (w : World) :
  ends_ready w (run env (pipeline file) w).
Proof.
  rewrite pipeline_segments, run_bind, run_await.
  destruct (env (fileToBase64 file)) as [e|base64]; [exact I|].
  unfold after_read. rewrite run_bind, run_exec, run_bind.
  match goal with
  | |- context [run env (identifyLandmark ?b) ?w1] =>
      pose proof (run_leaves_cells env (identifyLandmark b) w1
                    (leaves_cells_identifyLandmark b)) as (Hst & _);
      destruct (run env (identifyLandmark b) w1) as [w2 [e|lm]]; [exact I|]
  end.
  simpl in Hst.
  apply (ends_ready_from _ w2); [now rewrite Hst|].
  apply after_identify_ends_ready.
Qed.

(** ** Failures outside the three stages *)

Lemma renders_without_image (st : TourState) : image st = None -> renders st.
Proof. intros H. unfold renders, results_markers. rewrite H. simpl. eauto. Qed.

(** X2.  When the file reader rejects, no request is sent to the service:
    the only promise awaited is the file reader's.  The run leaves [image]
    empty, the stage [idle], [error] the message of the rejection
    ([undefined] when it carries none, as the event of a failed read does),
    the other fields as they were, it starts no playback, and the two states
    it writes can be evaluated whatever the landmark is. *)
Theorem read_failure_sends_nothing (env : Env) (file : File) (w : World) (e : Exn) :
  env (fileToBase64 file) = inl e ->
  let final := fst (run env (handleFileUpload (Some file)) w) in
  state final
  = {| image := None; landmark := landmark (state w); history := history (state w);
       audioBuffer := audioBuffer (state w);
       loadingStage := idle; error := message e |} /\
  calls final = (calls w ++ [fileToBase64 file])%list /\
  nodes final = nodes w /\
  audioSourceRef final = audioSourceRef w /\
  renders_since w final.
Proof.
  intros Hfile. cbv zeta. rewrite run_handleFileUpload, pipeline_segments.
  rewrite run_bind, run_await, Hfile.
  destruct (entered_cells w) as (Hn & Hr & Hcm).
  unfold on_error. rewrite run_exec.
  cbn [fst state calls nodes audioSourceRef setState log_call with_state with_calls].
  split_and!.
  - now rewrite state_entered.
  - now rewrite calls_entered.
  - exact Hn.
  - exact Hr.
  - unfold renders_since.
    cbn [state commits setState log_call with_state with_calls]. rewrite Hcm.
    eexists [_; _]. split; [now rewrite <- app_assoc|].
    apply List.Forall_cons; [|apply List.Forall_cons; [|apply List.Forall_nil]];
      apply renders_without_image; rewrite ?state_entered; reflexivity.
Qed.

(** The state and the nodes a run ends with when the narration's audio
    cannot be decoded. *)
Lemma undecodable_audio_run (env : Env) (file : File) (w : World)
    (base64 : string) (cs1 cs2 cs3 : list Call) (lm : json number) (name : jsval)
    (name_text audio : string) (h : DetailedHistory) (e : Exn) :
  env (fileToBase64 file) = inr base64 ->
  resolves env (identifyLandmark base64) cs1 lm ->
  get_name lm = inr name ->
  template name = inr name_text ->
  resolves env (researchLandmark name) cs2 h ->
  resolves env (narrateHistory (name_text ++ ". " ++ fullStory h)) cs3 audio ->
  decodeBase64 audio = inl e \/
  (exists bytes, decodeBase64 audio = inr bytes /\
                 env (decodeAudioData bytes (audioContextRef (entered w))) = inl e) ->
  let final := fst (run env (handleFileUpload (Some file)) w) in
  state final
  = {| image := Some ("data:image/jpeg;base64," ++ base64); landmark := lm;
       history := Some h; audioBuffer := audioBuffer (state w);
       loadingStage := idle; error := message e |} /\
  nodes final = nodes w /\
  audioSourceRef final = audioSourceRef w.
Proof.
  intros Hfile Hid Hname Htext Hres Hnar Hdec. cbv zeta.
  rewrite run_handleFileUpload. unfold pipeline.
  destruct (entered_cells w) as (Hn & Hr & _).
  rewrite run_bind, run_await, Hfile, run_bind, run_exec.
  rewrite run_bind, Hid, run_bind, run_exec, run_bind, run_eval, Hname.
  rewrite run_bind, Hres, run_bind, run_exec, run_bind, run_eval.
  rewrite run_bind, run_eval, Htext, run_bind, Hnar.
  rewrite run_bind, run_eval.
  destruct Hdec as [Hdec | (bytes & Hdec & Hreject)]; rewrite Hdec.
  - unfold on_error. rewrite run_exec.
    cbn [fst state nodes audioSourceRef setState log_call with_state with_calls].
    rewrite state_entered, Hn, Hr. split_and!; reflexivity.
  - rewrite run_bind. cbn [run].
    match goal with
    | |- context [decodeAudioData bytes ?c] => change c with (audioContextRef (entered w))
    end.
    rewrite run_bind, run_await, Hreject.
    unfold on_error. rewrite run_exec.
    cbn [fst state nodes audioSourceRef setState log_call with_state with_calls].
    rewrite state_entered, Hn, Hr. split_and!; reflexivity.
Qed.


(** The states a successful run writes, in order. *)
Lemma commits_on_success (env : Env) (file : File) (w : World)
    (base64 : string) (cs1 cs2 cs3 : list Call) (lm : json number) (name : jsval)
    (name_text audio : string) (h : DetailedHistory) (bytes : list Byte.byte)
    (buffer : AudioBuffer) :
  env (fileToBase64 file) = inr base64 ->
  resolves env (identifyLandmark base64) cs1 lm ->
  get_name lm = inr name ->
  template name = inr name_text ->
  resolves env (researchLandmark name) cs2 h ->
  resolves env (narrateHistory (name_text ++ ". " ++ fullStory h)) cs3 audio ->
  decodeBase64 audio = inr bytes ->
  env (decodeAudioData bytes (audioContextRef (entered w))) = inr buffer ->
  let picture := Some ("data:image/jpeg;base64," ++ base64) in
  let st := state w in
  commits (fst (run env (handleFileUpload (Some file)) w))
  = (commits w ++
     [ {| image := None; landmark := landmark st; history := history st;
          audioBuffer := audioBuffer st; loadingStage := identifying; error := None |};
       {| image := picture; landmark := landmark st; history := history st;
          audioBuffer := audioBuffer st; loadingStage := identifying; error := None |};
       {| image := picture; landmark := lm; history := history st;
          audioBuffer := audioBuffer st; loadingStage := researching; error := None |};
       {| image := picture; landmark := lm; history := Some h;
          audioBuffer := audioBuffer st; loadingStage := narrating; error := None |};
       {| image := picture; landmark := lm; history := Some h;
          audioBuffer := Some buffer; loadingStage := ready; error := None |} ])%list.
Proof.
  intros Hfile Hid Hname Htext Hres Hnar Hdec Hbuf. cbv zeta.
  rewrite run_handleFileUpload. unfold pipeline.
  destruct (entered_cells w) as (_ & _ & Hcm).
  rewrite run_bind, run_await, Hfile, run_bind, run_exec.
  rewrite run_bind, Hid, run_bind, run_exec, run_bind, run_eval, Hname.
  rewrite run_bind, Hres, run_bind, run_exec, run_bind, run_eval.
  rewrite run_bind, run_eval, Htext, run_bind, Hnar.
  rewrite run_bind, run_eval, Hdec, run_bind. cbn [run].
  match goal with
  | |- context [decodeAudioData bytes ?c] => change c with (audioContextRef (entered w))
  end.
  rewrite run_bind, run_await, Hbuf, run_bind, run_exec, run_exec.
  match goal with
  | |- context [playNarration buffer ?w0] =>
      destruct (playNarration_cells buffer w0) as (_ & Hcommits & _)
  end.
  cbn [fst]. rewrite Hcommits.
  cbn [state commits setState log_call with_state with_calls].
  rewrite Hcm, state_entered. rewrite <- !app_assoc. reflexivity.
Qed.

(** ** Sequences of plays *)

Lemma playNarration_length (buffer : AudioBuffer) (w : World) :
  audioContextRef w <> None ->
  length (nodes (playNarration buffer w)) = S (length (nodes w)).
Proof.
  intros Hc. destruct (playNarration_spec buffer w Hc) as (Hn & _).
  destruct (stop_current_spec w) as (_ & _ & _ & _ & _ & _ & _ & Hlen & _).
  rewrite Hn, length_app, Hlen. simpl. lia.
Qed.

Lemma play_all_ready (bs : list AudioBuffer) (w : World) :
  playback_ready w ->
  playback_ready (play_all bs w) /\
  length (nodes (play_all bs w)) = (length (nodes w) + length bs)%nat /\
  state (play_all bs w) = state w.
Proof.
  revert w. induction bs as [|b bs IH]; intros w Hw; simpl.
  - split_and!; [exact Hw | lia | reflexivity].
  - destruct (playNarration_single_handle b w Hw) as (_ & _ & _ & Hw').
    destruct (IH _ Hw') as (Hr & Hl & Hs).
    destruct (playNarration_cells b w) as (Hst & _).
    split_and!; [exact Hr | | congruence].
    rewrite Hl, playNarration_length by apply Hw. lia.
Qed.

(** X6.  However many times [playNarration] is called in a row, with
    whatever buffers, only the last call's buffer is playing afterwards:
    each call adds one source node and stops the one before, and none of
    them touches the tour state. *)
Theorem play_all_single_handle (bs : list AudioBuffer) (b : AudioBuffer) (w : World) :
  playback_ready w ->
  let w' := play_all (bs ++ [b]) w in
  let last := (length (nodes w) + length bs)%nat in
  active_handles w' = [last] /\
  nodes w' !! last = Some (mkNode b playing) /\
  audioSourceRef w' = Some last /\
  length (nodes w') = S last /\
  state w' = state w.
Proof.
  intros Hw. cbv zeta. unfold play_all. rewrite fold_left_app. simpl.
  fold (play_all bs w).
  destruct (play_all_ready bs w Hw) as (Hr & Hl & Hs).
  destruct (playNarration_single_handle b _ Hr) as (Ha & Hn & Href & _).
  destruct (playNarration_cells b (play_all bs w)) as (Hst & _).
  rewrite Hl in Ha, Hn, Href.
  split_and!; try assumption.
  - rewrite playNarration_length by apply Hr. now rewrite Hl.
  - congruence.
Qed.

(** ** Invariants of the reachable systems *)

Lemma reachable_invariant (I : World -> Prop) (vibrate : bool) :
  I (initialWorld vibrate) ->
  (forall c w, I w -> I (log_call c w)) ->
  (forall file, preserves I (handleFileUpload file)) ->
  (forall w, I w -> I (resetTour w)) ->
  (forall b w, I w -> I (playNarration b w)) ->
  (forall i n w, I w -> nodes w !! i = Some n -> node_state n = playing ->
     I (with_nodes w (<[i := mkNode (node_buffer n) finished]> (nodes w)))) ->
  forall s, reachable vibrate s ->
    I (world s) /\ forall t r, t ∈ tasks s -> preserves I (continuation t r).
Proof.
  intros Hinit Hlog Hup Hreset Hplay Hends s Hreach.
  assert (Hspawn : forall m s0,
            preserves I m -> I (world s0) ->
            (forall t r, t ∈ tasks s0 -> preserves I (continuation t r)) ->
            I (world (spawn m s0)) /\
            forall t r, t ∈ tasks (spawn m s0) -> preserves I (continuation t r)).
  { intros m s0 Hm Hw Ht.
    destruct (advance_preserves I m (world s0) Hlog Hm Hw) as [Hw' Hk].
    unfold spawn. destruct (advance m (world s0)) as [w' [r|c k]]; simpl in *.
    - split; [exact Hw' | exact Ht].
    - split; [exact Hw'|].
      intros t r Hin. apply elem_of_app in Hin as [Hin | Hin]; [now apply Ht|].
      apply list_elem_of_singleton in Hin. subst t. apply Hk. }
  induction Hreach as [|s s' _ [Hw Ht] Hstep].
  - split; [exact Hinit|]. intros t r Hin. inversion Hin.
  - destruct Hstep as [file s _ | s _ | buffer s _ | env i s | i s].
    + apply Hspawn; auto.
    + split; [apply Hreset, Hw | exact Ht].
    + split; [apply Hplay, Hw | exact Ht].
    + unfold settle. destruct (tasks s !! i) as [t|] eqn:Hl; [|split; assumption].
      apply Hspawn; simpl.
      * apply Ht. eapply list_elem_of_lookup_2; eauto.
      * exact Hw.
      * intros t' r Hin. apply Ht. eapply list_elem_of_delete_inv; eauto.
    + unfold playback_ends.
      destruct (nodes (world s) !! i) as [n|] eqn:Hn; [|split; assumption].
      destruct (node_state n) eqn:Hs; try (split; assumption).
      split; [apply Hends; assumption | exact Ht].
Qed.

Ltac preserves_handler step :=
  unfold handleFileUpload, pipeline, on_error;
  repeat first
    [ apply preserves_await
    | apply preserves_eval
    | apply preserves_identifyLandmark
    | apply preserves_researchLandmark
    | apply preserves_narrateHistory
    | apply preserves_exec; intros ? ?; step
    | apply preserves_bind; [|intros ?]
    | apply preserves_try_catch; [|intros ?]
    | constructor; intros ? ].

(** *** Handles *)

Lemma handles_valid_ext (w w' : World) :
  nodes w' = nodes w -> audioSourceRef w' = audioSourceRef w ->
  handles_valid w -> handles_valid w'.
Proof. unfold handles_valid. intros -> ->. auto. Qed.

Lemma stop_current_states (w : World) (i : nat) (n : SourceNode) :
  nodes (stop_current w) !! i = Some n ->
  exists n0, nodes w !! i = Some n0 /\
             (n = n0 \/ (node_state n0 = playing /\ node_state n = finished)).
Proof.
  unfold stop_current, source_stop.
  destruct (audioSourceRef w) as [r|]; [|eauto].
  destruct (nodes w !! r) as [nr|] eqn:Hr; [|eauto].
  destruct (node_state nr) eqn:Hs; simpl; eauto.
  intros Hn. apply list_lookup_insert_Some in Hn as [(-> & <- & _) | (Hne & Hn)]; eauto.
Qed.

Lemma handles_valid_stop (w : World) : handles_valid w -> handles_valid (stop_current w).
Proof.
  intros [Hstates Href].
  destruct (stop_current_spec w) as (_ & _ & Hr & _ & _ & _ & _ & Hlen & _).
  split.
  - intros i n Hn. destruct (stop_current_states w i n Hn) as (n0 & Hn0 & [-> | [_ Hf]]).
    + eauto.
    + congruence.
  - intros i Hi. rewrite Hlen. apply Href. congruence.
Qed.

Lemma handles_valid_play (buffer : AudioBuffer) (w : World) :
  handles_valid w -> handles_valid (playNarration buffer w).
Proof.
  intros Hv. destruct (audioContextRef w) as [ctx|] eqn:Hc.
  - assert (Hne : audioContextRef w <> None) by congruence.
    destruct (playNarration_spec buffer w Hne) as (Hn & Hr & _).
    destruct (handles_valid_stop w Hv) as [Hstates _].
    destruct (stop_current_spec w) as (_ & _ & _ & _ & _ & _ & _ & Hlen & _).
    split.
    + intros i n. rewrite Hn. intros Hi.
      apply lookup_app_Some in Hi as [Hi | [_ Hi]]; [eauto|].
      destruct (i - length (nodes (stop_current w)))%nat; simpl in Hi; [|discriminate].
      inversion Hi. simpl. discriminate.
    + intros i. rewrite Hr, Hn, length_app, Hlen. simpl. intros Hi. inversion Hi. lia.
  - unfold playNarration. now rewrite Hc.
Qed.

Lemma handles_valid_reset (w : World) : handles_valid w -> handles_valid (resetTour w).
Proof.
  intros Hv. destruct (resetTour_components w) as (_ & _ & Hn & Hr & _).
  apply (handles_valid_ext (stop_current w)); [exact Hn | |now apply handles_valid_stop].
  destruct (stop_current_spec w) as (_ & _ & Hr' & _). congruence.
Qed.

Lemma handles_valid_init (w : World) : handles_valid w -> handles_valid (initAudioContext w).
Proof.
  apply handles_valid_ext; unfold initAudioContext; destruct (audioContextRef w); reflexivity.
Qed.

Lemma handles_valid_haptic (p : list Z) (w : World) :
  handles_valid w -> handles_valid (triggerHaptic p w).
Proof.
  apply handles_valid_ext; unfold triggerHaptic; destruct (has_vibrate w); reflexivity.
Qed.

Lemma reachable_handles_valid (vibrate : bool) (s : System) :
  reachable vibrate s -> handles_valid (world s).
Proof.
  intros Hreach.
  apply (reachable_invariant handles_valid vibrate); try assumption.
  - split; [intros i n Hn; inversion Hn | intros i Hi; inversion Hi].
  - intros c w. apply handles_valid_ext; reflexivity.
  - intros [file|]; [|constructor].
    preserves_handler
      ltac:(first [ apply handles_valid_haptic
                  | apply handles_valid_init
                  | apply handles_valid_play
                  | apply (handles_valid_ext _ _ eq_refl eq_refl) ]; assumption).
  - apply handles_valid_reset.
  - apply handles_valid_play.
  - intros i n w [Hstates Href] Hn Hs. split; simpl.
    + intros j nj Hj.
      apply list_lookup_insert_Some in Hj as [(-> & <- & _) | (_ & Hj)]; [discriminate|eauto].
    + intros j Hj. rewrite length_insert. auto.
Qed.

(** X7.  In every reachable system the node held by [audioSourceRef] exists
    and has been started, so [audioSourceRef.current.stop()] succeeds: the
    [catch] around it in [playNarration] and [resetTour] is never entered. *)
Theorem stop_never_throws (vibrate : bool) (s : System) (i : nat) :
  reachable vibrate s ->
  audioSourceRef (world s) = Some i ->
  (exists n, nodes (world s) !! i = Some n /\ node_state n <> unstarted) /\
  exists w', source_stop i (world s) = inr w'.
Proof.
  intros Hreach Hi. destruct (reachable_handles_valid vibrate s Hreach) as [Hstates Href].
  destruct (lookup_lt_is_Some_2 (nodes (world s)) i (Href i Hi)) as [n Hn].
  split; [exists n; eauto|].
  unfold source_stop. rewrite Hn.
  specialize (Hstates i n Hn). destruct (node_state n); [congruence | eauto | eauto].
Qed.

(** *** The audio context *)

Lemma context_at_24000_ext (w w' : World) :
  audioContextRef w' = audioContextRef w -> context_at_24000 w -> context_at_24000 w'.
Proof. unfold context_at_24000. now intros ->. Qed.

Lemma context_at_24000_init (w : World) :
  context_at_24000 w -> context_at_24000 (initAudioContext w).
Proof.
  unfold context_at_24000, initAudioContext. intros [H|H]; rewrite H; simpl; auto.
Qed.

Lemma reachable_context (vibrate : bool) (s : System) :
  reachable vibrate s -> context_at_24000 (world s).
Proof.
  intros Hreach.
  apply (reachable_invariant context_at_24000 vibrate); try assumption.
  - now left.
  - intros c w. apply context_at_24000_ext; reflexivity.
  - intros [file|]; [|constructor].
    preserves_handler
      ltac:(first [ apply context_at_24000_init
                  | eapply context_at_24000_ext; [apply playNarration_cells|]
                  | eapply context_at_24000_ext; [apply triggerHaptic_spec|]
                  | apply (context_at_24000_ext _ _ eq_refl) ]; assumption).
  - intros w. apply context_at_24000_ext. apply resetTour_components.
  - intros b w. apply context_at_24000_ext. apply playNarration_cells.
  - intros i n w H _ _. exact H.
Qed.

Lemma playback_ready_haptic (p : list Z) (w : World) :
  playback_ready w -> playback_ready (triggerHaptic p w).
Proof. apply playback_ready_ext; apply triggerHaptic_spec. Qed.

Lemma playback_ready_init (w : World) :
  playback_ready w -> playback_ready (initAudioContext w).
Proof.
  intros [Hinv Hc]. unfold initAudioContext.
  destruct (audioContextRef w) eqn:E; [split; [assumption | congruence] | congruence].
Qed.

Lemma step_keeps_context (s s' : System) :
  system_inv s -> step s s' ->
  audioContextRef (world s) <> None -> audioContextRef (world s') <> None.
Proof.
  intros [Hpb _ Htasks] Hstep Hc.
  assert (Hready : playback_ready (world s)) by (split; assumption).
  destruct Hstep as [file s _ | s _ | buffer s _ | env i s | i s].
  - assert (Hm : preserves playback_ready (handleFileUpload file)).
    { destruct file as [file|]; [|constructor].
      preserves_handler
        ltac:(first [ apply playback_ready_haptic
                    | apply playback_ready_init
                    | apply playback_ready_setState
                    | apply playNarration_single_handle ]; assumption). }
    destruct (advance_preserves playback_ready _ (world s) playback_ready_log_call Hm Hready)
      as [[_ Hc'] _].
    unfold upload, spawn. destruct (advance _ (world s)) as [w' [r|c k]]; exact Hc'.
  - unfold reset. cbn [world].
    destruct (resetTour_components (world s)) as (_ & _ & _ & _ & He & _). congruence.
  - unfold replay. cbn [world].
    destruct (playNarration_cells buffer (world s)) as (_ & _ & _ & He & _). congruence.
  - unfold settle. destruct (tasks s !! i) as [t|] eqn:Ht; [|exact Hc].
    assert (Hin : t ∈ tasks s) by (eapply list_elem_of_lookup_2; eauto).
    destruct (advance_preserves playback_ready (continuation t (env (awaited t)))
                (world s) playback_ready_log_call (Htasks _ _ Hin) Hready) as [[_ Hc'] _].
    unfold spawn. cbn [world tasks].
    destruct (advance _ (world s)) as [w' [r|c k]]; exact Hc'.
  - unfold playback_ends.
    destruct (nodes (world s) !! i) as [n|]; [|exact Hc].
    destruct (node_state n); exact Hc.
Qed.

(** X8.  In every reachable system the audio context is absent or runs at
    24000 Hz, the rate of the narration's PCM data, and once
    [audioContextRef] holds a context no event empties it, neither a new
    upload nor a reset. *)
Theorem audio_context_stays_at_24000 (vibrate : bool) (s : System) :
  reachable vibrate s ->
  (audioContextRef (world s) = None \/
   exists ctx, audioContextRef (world s) = Some ctx /\ ctx_sampleRate ctx = 24000) /\
  forall s', step s s' ->
    audioContextRef (world s) <> None ->
    audioContextRef (world s') <> None.
Proof.
  intros Hreach. split.
  - destruct (reachable_context vibrate s Hreach) as [H|H]; [now left|].
    right. eexists. split; [exact H | reflexivity].
  - intros s' Hstep Hc.
    exact (step_keeps_context s s' (reachable_inv vibrate s Hreach) Hstep Hc).
Qed.

(** *** The replay button *)

Lemma ready_has_audio_ext (w w' : World) :
  state w' = state w -> ready_has_audio w -> ready_has_audio w'.
Proof. unfold ready_has_audio. now intros ->. Qed.

Lemma reachable_ready_has_audio (vibrate : bool) (s : System) :
  reachable vibrate s -> ready_has_audio (world s).
Proof.
  intros Hreach.
  apply (reachable_invariant ready_has_audio vibrate); try assumption.
  - intros H. discriminate.
  - intros c w. apply ready_has_audio_ext; reflexivity.
  - intros [file|]; [|constructor].
    preserves_handler
      ltac:(first
              [ eapply ready_has_audio_ext; [apply triggerHaptic_spec | assumption]
              | eapply ready_has_audio_ext; [apply playNarration_cells | assumption]
              | eapply ready_has_audio_ext; [|eassumption];
                  unfold initAudioContext;
                  match goal with |- context [audioContextRef ?w0] =>
                    destruct (audioContextRef w0) end; reflexivity
              | unfold ready_has_audio, setState in *; simpl; intros; try discriminate; auto ]).
  - intros w _. destruct (resetTour_components w) as (Hst & _).
    unfold ready_has_audio. rewrite Hst. discriminate.
  - intros b w. apply ready_has_audio_ext. apply playNarration_cells.
  - intros i n w H _ _. exact H.
Qed.

(** X9.  Whenever the stage is [ready] the state holds a buffer, so the
    page offers the replay button with it: the non-null assertion in
    [playNarration(state.audioBuffer!)] never sees [null]. *)
Theorem ready_offers_replay (vibrate : bool) (s : System) :
  reachable vibrate s ->
  loadingStage (state (world s)) = ready ->
  exists buffer,
    audioBuffer (state (world s)) = Some buffer /\
    replay_rendered (state (world s)) = Some buffer.
Proof.
  intros Hreach Hready.
  pose proof (reachable_ready_has_audio vibrate s Hreach Hready) as Hbuf.
  destruct (audioBuffer (state (world s))) as [b|] eqn:Hb; [|congruence].
  exists b. split; [reflexivity|].
  unfold replay_rendered, is_idle. now rewrite Hready, Hb.
Qed.

(** X10.  Whenever the replay button is on the page, pressing it restarts
    the narration: the guard on the audio context passes, whatever was
    playing is stopped, the stored buffer plays on the only active handle,
    and neither the tour state nor the suspended runs change. *)
Theorem replay_restarts_playback (vibrate : bool) (s : System) (buffer : AudioBuffer) :
  reachable vibrate s ->
  replay_rendered (state (world s)) = Some buffer ->
  exists handle,
    active_handles (world (replay buffer s)) = [handle] /\
    nodes (world (replay buffer s)) !! handle = Some (mkNode buffer playing) /\
    audioSourceRef (world (replay buffer s)) = Some handle /\
    state (world (replay buffer s)) = state (world s) /\
    tasks (replay buffer s) = tasks s.
Proof.
  intros Hreach Hreplay.
  pose proof (reachable_replay_ready vibrate s buffer Hreach Hreplay) as Hready.
  destruct (playNarration_single_handle buffer (world s) Hready) as (Ha & Hn & Hr & _).
  destruct (playNarration_cells buffer (world s)) as (Hst & _).
  exists (length (nodes (world s))). unfold replay. cbn [world tasks].
  split_and!; auto.
Qed.

(** *** Vibration *)

Lemma haptics_ok_ext (vibrate : bool) (w w' : World) :
  has_vibrate w' = has_vibrate w -> vibrations w' = vibrations w ->
  haptics_ok vibrate w -> haptics_ok vibrate w'.
Proof. unfold haptics_ok. now intros -> ->. Qed.

Lemma haptics_ok_trigger (vibrate : bool) (pattern : list Z) (w : World) :
  pattern = [40; 30; 40] \/ pattern = [20] ->
  haptics_ok vibrate w -> haptics_ok vibrate (triggerHaptic pattern w).
Proof.
  intros Hp (Hv & Hoff & Hall). unfold triggerHaptic.
  destruct (has_vibrate w) eqn:E; [|split_and!; first [assumption | congruence]].
  split_and!; simpl.
  - congruence.
  - intros ->. congruence.
  - apply Forall_app. split; [exact Hall | constructor; [exact Hp | constructor]].
Qed.

Lemma stop_current_haptics (vibrate : bool) (w : World) :
  haptics_ok vibrate w -> haptics_ok vibrate (stop_current w).
Proof.
  destruct (stop_current_spec w) as (_ & _ & _ & Hv & Hh & _).
  now apply haptics_ok_ext.
Qed.

Lemma haptics_ok_reset (vibrate : bool) (w : World) :
  haptics_ok vibrate w -> haptics_ok vibrate (resetTour w).
Proof.
  intros H. unfold resetTour.
  apply (haptics_ok_ext vibrate (stop_current (triggerHaptic [20] w))); try reflexivity.
  apply stop_current_haptics, haptics_ok_trigger; auto.
Qed.

(** X11.  The device is asked to vibrate only where vibration exists, and
    only with the pattern of an upload or the pattern of a reset: on a
    platform without [navigator.vibrate] nothing is ever vibrated. *)
Theorem vibration_only_where_supported (vibrate : bool) (s : System) :
  reachable vibrate s ->
  (vibrate = false -> vibrations (world s) = []) /\
  Forall (fun pattern => pattern = [40; 30; 40] \/ pattern = [20]) (vibrations (world s)).
Proof.
  intros Hreach.
  enough (H : haptics_ok vibrate (world s)) by (destruct H as (_ & H1 & H2); auto).
  apply (reachable_invariant (haptics_ok vibrate) vibrate); try assumption.
  - split_and!; [reflexivity | reflexivity | constructor].
  - intros c w. apply haptics_ok_ext; reflexivity.
  - intros [file|]; [|constructor].
    preserves_handler
      ltac:(first
              [ apply haptics_ok_trigger; [now left | assumption]
              | eapply haptics_ok_ext; [| |eassumption]; apply playNarration_cells
              | eapply haptics_ok_ext; [| |eassumption];
                  unfold initAudioContext;
                  match goal with |- context [audioContextRef ?w0] =>
                    destruct (audioContextRef w0) end; reflexivity
              | apply (haptics_ok_ext _ _ _ eq_refl eq_refl); assumption ]).
  - apply haptics_ok_reset.
  - intros b w. apply haptics_ok_ext; apply playNarration_cells.
  - intros i n w H _ _. exact H.
Qed.

(** ** The narration request and its response *)

(** X12.  A text of at most 1000 characters is sent whole: the prompt is the
    instruction followed by the text itself, nothing cut. *)
Theorem short_text_sent_whole (text_ : string) :
  (String.length text_ <= 1000)%nat ->
  contents (narrateRequest text_) = [ text_part (narrationPrefix ++ text_) ].
Proof.
  intros Hlen. unfold narrateRequest, narrationPrompt. simpl.
  rewrite js_substring_from_0 by lia.
  change (Z.to_nat 1000) with 1000%nat. now rewrite substring0_all.
Qed.

(** X13.  [narrateHistory] looks for audio in the first part of the first
    candidate only.  If that part carries no data the call fails with "No
    audio data generated.", whatever the later parts and candidates hold;
    if it does, that data is the result. *)
Theorem narrateHistory_reads_first_part (env : Env) (story : string) (w : World)
    (response : GenerateContentResponse) (part : ResponsePart)
    (later_parts : list ResponsePart) (grounding : option GroundingMetadata)
    (later_candidates : list Candidate) :
  env (generateContent (narrateRequest story)) = inr response ->
  candidates response
  = Some (mkCandidate (Some (mkContent (Some (part :: later_parts)))) grounding
          :: later_candidates) ->
  snd (run env (narrateHistory story) w)
  = match inlineData part ?. blob_data with
    | Some EmptyString | None => inl (Error "No audio data generated.")
    | Some audio => inr audio
    end.
Proof.
  intros Henv Hc. unfold narrateHistory. rewrite run_bind, run_await, Henv.
  unfold base64Audio_of. rewrite Hc. cbn [chain head hd_error content parts].
  destruct (inlineData part ?. blob_data) as [[|c audio]|]; reflexivity.
Qed.

(** ** The marker overlay *)

Lemma conforming_poi_style (poi : json number) :
  conforms (OBJECT [ ("label", STRING); ("description", STRING);
                     ("x", NUMBER); ("y", NUMBER) ]
                   [ "label"; "description"; "x"; "y" ]) poi = true ->
  exists x y, get_property "x" poi = inr (Some (JNum x)) /\
              get_property "y" poi = inr (Some (JNum y)) /\
              marker_style poi
              = inr (Number_toString x ++ "%", Number_toString y ++ "%").
Proof.
  destruct poi as [| | | | |fields]; try discriminate.
  cbn [conforms forallb fst snd]. unfold has_field.
  intros H. repeat (apply andb_prop in H as [? H]).
  repeat match goal with
         | H : (_ && _)%bool = true |- _ => apply andb_prop in H as [? ?]
         end.
  unfold marker_style. cbn [get_property].
  destruct (lookup_field "x" fields) as [[| | x | | |]|]; try discriminate.
  destruct (lookup_field "y" fields) as [[| | y | | |]|]; try discriminate.
  exists x, y. split_and!; reflexivity.
Qed.

Lemma conforming_pois_styles (pois : list (json number)) :
  forallb (conforms (OBJECT [ ("label", STRING); ("description", STRING);
                              ("x", NUMBER); ("y", NUMBER) ]
                            [ "label"; "description"; "x"; "y" ])) pois = true ->
  exists ms, map_throwing marker_style pois = inr ms /\ length ms = length pois.
Proof.
  induction pois as [|poi pois IH]; intros H.
  - exists []. split; reflexivity.
  - apply andb_prop in H as [Hpoi Hrest].
    destruct (conforming_poi_style poi Hpoi) as (x & y & _ & _ & Hstyle).
    destruct (IH Hrest) as (ms & Hms & Hlen).
    eexists. cbn [map_throwing]. rewrite Hstyle, Hms. split; [reflexivity|].
    simpl. now rewrite Hlen.
Qed.

(** X14.  A landmark that has the shape asked for in the identification
    request always renders: evaluating the marker overlay throws nothing and
    yields one marker per point of interest. *)
Theorem conforming_landmark_renders (st : TourState) :
  conforms landmarkSchema (landmark st) = true ->
  exists pois ms,
    get_property "pointsOfInterest" (landmark st) = inr (Some (JArr pois)) /\
    poi_markers st = inr ms /\
    length ms = length pois.
Proof.
  unfold poi_markers. destruct (landmark st) as [| | | | |fields]; try discriminate.
  unfold landmarkSchema. cbn [conforms forallb fst snd]. unfold has_field.
  intros H. repeat (apply andb_prop in H as [? H]).
  repeat match goal with
         | H : (_ && _)%bool = true |- _ => apply andb_prop in H as [? ?]
         end.
  cbn [get_property].
  destruct (lookup_field "pointsOfInterest" fields) as [[| | | |pois|]|];
    try discriminate.
  match goal with
  | H : forallb _ pois = true |- _ =>
      destruct (conforming_pois_styles pois H) as (ms & Hms & Hlen)
  end.
  exists pois, ms. auto.
Qed.

(** ** A run, one settled promise at a time *)

Lemma spawn_finished (m : Async unit) (s : System) (w' : World) (r : Exn + unit) :
  advance m (world s) = (w', Finished r) -> spawn m s = mkSystem w' (tasks s).
Proof. intros H. unfold spawn. now rewrite H. Qed.

Lemma identify_blocks_research (lm : json number) (name : jsval) (name_text : string)
    (w : World) :
  get_name lm = inr name ->
  template name = inr name_text ->
  exists k,
    advance (try_catch (after_identify lm) on_error) w
    = (log_call (generateContent (researchRequest (researchPrompt name_text)))
         (setState (fun prev =>
            {| image := image prev; landmark := lm; history := history prev;
               audioBuffer := audioBuffer prev; loadingStage := researching;
               error := error prev |}) w),
       Blocked (generateContent (researchRequest (researchPrompt name_text))) k) /\
    forall response,
      k (inr response)
      = try_catch
          (after_research lm
             {| fullStory := JsString.or_else (text response) "No information found.";
                sources :=
                  omap (fun chunk =>
                          (fun wb => mkSource (web_title wb) (web_uri wb)) <$> web chunk)
                       (groundingChunks_of response) |})
          on_error.
Proof.
  intros Hname Htext. unfold after_identify, researchLandmark.
  rewrite Hname. cbn [eval bind exec]. rewrite Htext. eexists. split; [reflexivity|].
  intros response. cbn [eval bind try_catch]. rewrite sources_of_chunks. reflexivity.
Qed.

Lemma research_blocks (lm : json number) (h : DetailedHistory) (name : jsval)
    (name_text : string) (w : World) :
  get_name lm = inr name ->
  template name = inr name_text ->
  exists k,
    advance (try_catch (after_research lm h) on_error) w
    = (log_call (generateContent (narrateRequest (name_text ++ ". " ++ fullStory h)))
         (setState (fun prev =>
            {| image := image prev; landmark := landmark prev; history := Some h;
               audioBuffer := audioBuffer prev; loadingStage := narrating;
               error := error prev |}) w),
       Blocked (generateContent (narrateRequest (name_text ++ ". " ++ fullStory h))) k) /\
    forall response audio,
      base64Audio_of response = Some audio -> audio <> "" ->
      k (inr response) = try_catch (after_narrate audio) on_error.
Proof.
  intros Hname Htext. unfold after_research, narrateHistory.
  rewrite Hname. cbn [eval bind exec]. rewrite Htext. eexists. split; [reflexivity|].
  intros response audio Haudio Hne. cbn [eval bind try_catch]. rewrite Haudio.
  destruct audio; [congruence | reflexivity].
Qed.

Lemma narrate_blocks (audio : string) (bytes : list Byte.byte) (w : World) :
  decodeBase64 audio = inr bytes ->
  exists k,
    advance (try_catch (after_narrate audio) on_error) w
    = (log_call (decodeAudioData bytes (audioContextRef w)) w,
       Blocked (decodeAudioData bytes (audioContextRef w)) k) /\
    forall buffer, k (inr buffer) = try_catch (after_decode buffer) on_error.
Proof.
  intros Hdec. unfold after_narrate. rewrite Hdec. eexists. split; reflexivity.
Qed.

Lemma decode_finishes (buffer : AudioBuffer) (w : World) :
  advance (try_catch (after_decode buffer) on_error) w
  = (playNarration buffer
       (setState (fun prev =>
          {| image := image prev; landmark := landmark prev; history := history prev;
             audioBuffer := Some buffer; loadingStage := ready;
             error := error prev |}) w),
     Finished (inr tt)).
Proof. reflexivity. Qed.

(** The system once a lone run has its landmark and awaits the research. *)
Lemma researching_after_identify (env : Env) (file : File) (w : World) (base64 : string)
    (response : GenerateContentResponse) (lm : json number) (name : jsval)
    (name_text : string) :
  env (fileToBase64 file) = inr base64 ->
  env (generateContent (identifyRequest base64)) = inr response ->
  JSON_parse (JsString.or_else (text response) "{}") = Some lm ->
  get_name lm = inr name ->
  template name = inr name_text ->
  exists W k,
    settle env 0 (settle env 0 (upload (Some file) (mkSystem w [])))
    = mkSystem W [mkTask (generateContent (researchRequest (researchPrompt name_text))) k] /\
    state W
    = {| image := Some ("data:image/jpeg;base64," ++ base64); landmark := lm;
         history := history (state w); audioBuffer := audioBuffer (state w);
         loadingStage := researching; error := None |} /\
    nodes W = nodes w /\ audioSourceRef W = audioSourceRef w /\
    audioContextRef W = audioContextRef (entered w) /\
    commits W
    = (commits w ++
       [ {| image := None; landmark := landmark (state w); history := history (state w);
            audioBuffer := audioBuffer (state w); loadingStage := identifying;
            error := None |};
         {| image := Some ("data:image/jpeg;base64," ++ base64)%string;
            landmark := landmark (state w); history := history (state w);
            audioBuffer := audioBuffer (state w); loadingStage := identifying;
            error := None |};
         {| image := Some ("data:image/jpeg;base64," ++ base64)%string; landmark := lm;
            history := history (state w); audioBuffer := audioBuffer (state w);
            loadingStage := researching; error := None |} ])%list /\
    forall response2,
      k (inr response2)
      = try_catch
          (after_research lm
             {| fullStory := JsString.or_else (text response2) "No information found.";
                sources :=
                  omap (fun chunk =>
                          (fun wb => mkSource (web_title wb) (web_uri wb)) <$> web chunk)
                       (groundingChunks_of response2) |})
          on_error.
Proof.
  intros Hfile Hresp Hparse Hname Htext.
  destruct (identifying_after_read env file w base64 Hfile) as (k & -> & Hk).
  match goal with
  | |- context [settle env 0 (mkSystem ?w0 _)] => set (wi := w0)
  end.
  destruct (identify_blocks_research lm name name_text wi Hname Htext) as (k' & Hk' & Hk'').
  rewrite settle_single, Hresp, (Hk _ _ Hparse).
  rewrite (spawn_blocked _ (mkSystem wi []) _ _ _ Hk').
  eexists _, k'. split; [reflexivity|]. subst wi.
  destruct (entered_cells w) as (Hn & Hr & Hcm).
  cbn [state nodes audioSourceRef audioContextRef commits log_call setState with_calls
       with_state].
  rewrite Hcm, state_entered, Hn, Hr.
  split_and!; first [reflexivity | now rewrite <- !app_assoc | exact Hk''].
Qed.

(** X15.  A landmark without a [pointsOfInterest] array cannot be drawn.
    When the identification payload parses to such an object the run still
    moves to [researching], with the picture shown and no error; evaluating
    the marker overlay for that state throws a type error. *)
Theorem incomplete_landmark_breaks_render (env : Env) (file : File) (w : World)
    (base64 : string) (response : GenerateContentResponse)
    (fields : list (string * json number)) (name_text : string) :
  env (fileToBase64 file) = inr base64 ->
  env (generateContent (identifyRequest base64)) = inr response ->
  JSON_parse (JsString.or_else (text response) "{}") = Some (JObj fields) ->
  lookup_field "pointsOfInterest" fields = None ->
  template (lookup_field "name" fields) = inr name_text ->
  let s3 := settle env 0 (settle env 0 (upload (Some file) (mkSystem w []))) in
  loadingStage (state (world s3)) = researching /\
  error (state (world s3)) = None /\
  results_markers (state (world s3))
  = inl (TypeError "Cannot read properties of undefined (reading 'map')").
Proof.
  intros Hfile Hresp Hparse Hpoints Htext. cbv zeta.
  destruct (researching_after_identify env file w base64 response (JObj fields)
              (lookup_field "name" fields) name_text Hfile Hresp Hparse eq_refl Htext)
    as (W & k & -> & Hst & _).
  cbn [world]. rewrite Hst. split_and!; try reflexivity.
  unfold results_markers, poi_markers.
  cbn [image error landmark get_property JsString.truthy String.append andb negb].
  now rewrite Hpoints.
Qed.

Lemma playback_ready_reset (w : World) : playback_ready w -> playback_ready (resetTour w).
Proof.
  intros [Hinv Hc]. destruct (resetTour_components w) as (_ & _ & _ & _ & He & _).
  split; [|congruence].
  intros i Hi. rewrite resetTour_silences in Hi by assumption. inversion Hi.
Qed.

(** ** Rendering the states a run writes *)

Lemma drawable_markers (st : TourState) :
  drawable (landmark st) -> exists ms, poi_markers st = inr ms.
Proof.
  unfold drawable, poi_markers.
  destruct (landmark st) as [| | | | |fields]; intros [H|H]; try discriminate; eauto.
  revert H. unfold landmarkSchema. cbn [conforms forallb fst snd]. unfold has_field.
  intros H. repeat (apply andb_prop in H as [? H]).
  repeat match goal with
         | H : (_ && _)%bool = true |- _ => apply andb_prop in H as [? ?]
         end.
  cbn [get_property].
  destruct (lookup_field "pointsOfInterest" fields) as [[| | | |pois|]|];
    try discriminate.
  match goal with
  | H : forallb _ pois = true |- _ =>
      destruct (conforming_pois_styles pois H) as (ms & Hms & _)
  end.
  eauto.
Qed.

Lemma drawable_renders (st : TourState) : drawable (landmark st) -> renders st.
Proof.
  intros Hd. destruct (drawable_markers st Hd) as [ms Hms].
  unfold renders, results_markers. rewrite Hms.
  destruct (_ && _)%bool; eauto.
Qed.

Lemma stays_drawn_refl (w : World) : drawable (landmark (state w)) -> stays_drawn w w.
Proof.
  intros Hd. split; [|exact Hd].
  exists []. split; [now rewrite app_nil_r | constructor].
Qed.

Lemma stays_drawn_trans (w1 w2 w3 : World) :
  stays_drawn w1 w2 -> stays_drawn w2 w3 -> stays_drawn w1 w3.
Proof.
  intros [(n1 & H1 & F1) _] [(n2 & H2 & F2) Hd]. split; [|exact Hd].
  exists (n1 ++ n2)%list. split.
  - rewrite H2, H1. now rewrite <- app_assoc.
  - apply Forall_app. split; assumption.
Qed.

Lemma stays_drawn_same (w w' : World) :
  state w' = state w -> commits w' = commits w ->
  drawable (landmark (state w)) -> stays_drawn w w'.
Proof.
  intros Hs Hc Hd. split; [|now rewrite Hs].
  exists []. split; [now rewrite Hc, app_nil_r | constructor].
Qed.

Lemma stays_drawn_setState (updater : TourState -> TourState) (w : World) :
  drawable (landmark (updater (state w))) -> stays_drawn w (setState updater w).
Proof.
  intros Hd. split; [|exact Hd].
  exists [updater (state w)]. split; [reflexivity|].
  apply List.Forall_cons; [now apply drawable_renders | apply List.Forall_nil].
Qed.

Lemma stays_drawn_log_call (c : Call) (w : World) :
  drawable (landmark (state w)) -> stays_drawn w (log_call c w).
Proof. apply stays_drawn_same; reflexivity. Qed.

Lemma stays_drawn_play (buffer : AudioBuffer) (w : World) :
  drawable (landmark (state w)) -> stays_drawn w (playNarration buffer w).
Proof.
  destruct (playNarration_cells buffer w) as (Hs & Hc & _). now apply stays_drawn_same.
Qed.

Lemma stays_drawn_reset (w : World) : stays_drawn w (resetTour w).
Proof.
  destruct (resetTour_components w) as (Hs & Hc & _). split.
  - exists [initialState]. split; [exact Hc|].
    apply List.Forall_cons; [|apply List.Forall_nil]. now apply renders_without_image.
  - rewrite Hs. now left.
Qed.

Lemma stays_drawn_stage {A : Type} (env : Env) (m : Async A) (w : World) :
  leaves_cells m -> drawable (landmark (state w)) -> stays_drawn w (fst (run env m w)).
Proof.
  intros Hm. destruct (run_leaves_cells env m w Hm) as (Hs & _ & _ & _ & _ & _ & Hc).
  now apply stays_drawn_same.
Qed.

Lemma stays_drawn_entered (w : World) :
  drawable (landmark (state w)) -> stays_drawn w (entered w).
Proof.
  intros Hd. destruct (entered_cells w) as (_ & _ & Hc). split.
  - exists [state (entered w)]. split; [exact Hc|].
    apply List.Forall_cons; [|apply List.Forall_nil].
    apply renders_without_image. now rewrite state_entered.
  - now rewrite state_entered.
Qed.

Lemma after_decode_drawn (env : Env) (buffer : AudioBuffer) (w : World) :
  drawable (landmark (state w)) ->
  stays_drawn w (fst (run env (after_decode buffer) w)).
Proof.
  intros Hd. unfold after_decode. rewrite run_bind, run_exec, run_exec. cbn [fst].
  match goal with
  | |- stays_drawn _ (playNarration _ ?w1) => apply (stays_drawn_trans _ w1)
  end.
  - apply stays_drawn_setState. exact Hd.
  - apply stays_drawn_play. exact Hd.
Qed.

Lemma after_narrate_drawn (env : Env) (audio : string) (w : World) :
  drawable (landmark (state w)) ->
  stays_drawn w (fst (run env (after_narrate audio) w)).
Proof.
  intros Hd. unfold after_narrate. rewrite run_bind, run_eval.
  destruct (decodeBase64 audio) as [e|bytes]; [now apply stays_drawn_refl|].
  rewrite run_bind. cbn [run]. rewrite run_bind, run_await.
  destruct (env (decodeAudioData bytes (audioContextRef w))) as [e|buffer];
    [now apply stays_drawn_log_call|].
  apply (stays_drawn_trans _ (log_call (decodeAudioData bytes (audioContextRef w)) w));
    [now apply stays_drawn_log_call | now apply after_decode_drawn].
Qed.

Lemma after_research_drawn (env : Env) (lm : json number) (h : DetailedHistory)
    (w : World) :
  drawable (landmark (state w)) ->
  stays_drawn w (fst (run env (after_research lm h) w)).
Proof.
  intros Hd. unfold after_research. rewrite run_bind, run_exec.
  match goal with
  | |- context [setState ?f w] => set (w1 := setState f w)
  end.
  assert (H1 : stays_drawn w w1) by (apply stays_drawn_setState; exact Hd).
  rewrite run_bind, run_eval.
  destruct (get_name lm) as [e|name]; [exact H1|].
  rewrite run_bind, run_eval.
  destruct (template name) as [e|name_text]; [exact H1|].
  rewrite run_bind.
  match goal with
  | |- context [run env (narrateHistory ?t) w1] =>
      pose proof (stays_drawn_stage env (narrateHistory t) w1
                    (leaves_cells_narrateHistory t) (proj2 H1)) as H2;
      destruct (run env (narrateHistory t) w1) as [w2 [e|audio]]
  end.
  - exact (stays_drawn_trans _ _ _ H1 H2).
  - cbn [fst] in H2. apply (stays_drawn_trans _ w2).
    + exact (stays_drawn_trans _ _ _ H1 H2).
    + apply after_narrate_drawn, H2.
Qed.

Lemma after_identify_drawn (env : Env) (lm : json number) (w : World) :
  drawable lm -> stays_drawn w (fst (run env (after_identify lm) w)).
Proof.
  intros Hd. unfold after_identify. rewrite run_bind, run_exec.
  match goal with
  | |- context [setState ?f w] => set (w1 := setState f w)
  end.
  assert (H1 : stays_drawn w w1) by (apply stays_drawn_setState; exact Hd).
  rewrite run_bind, run_eval.
  destruct (get_name lm) as [e|name]; [exact H1|].
  rewrite run_bind.
  match goal with
  | |- context [run env (researchLandmark ?n) w1] =>
      pose proof (stays_drawn_stage env (researchLandmark n) w1
                    (leaves_cells_researchLandmark n) (proj2 H1)) as H2;
      destruct (run env (researchLandmark n) w1) as [w2 [e|h]]
  end.
  - exact (stays_drawn_trans _ _ _ H1 H2).
  - cbn [fst] in H2. apply (stays_drawn_trans _ w2).
    + exact (stays_drawn_trans _ _ _ H1 H2).
    + apply after_research_drawn, H2.
Qed.

Lemma run_identifyLandmark_result (env : Env) (base64 : string) (w w' : World)
    (lm : json number) :
  run env (identifyLandmark base64) w = (w', inr lm) ->
  exists response,
    env (generateContent (identifyRequest base64)) = inr response /\
    JSON_parse (JsString.or_else (text response) "{}") = Some lm.
Proof.
  unfold identifyLandmark. rewrite run_bind, run_await.
  destruct (env (generateContent (identifyRequest base64))) as [e|response];
    [discriminate|].
  destruct (JSON_parse (JsString.or_else (text response) "{}")) as [v|] eqn:Hp;
    simpl; intros H; inversion H; subst. eauto.
Qed.

Lemma after_read_drawn (env : Env) (base64 : string) (w : World) :
  drawable (landmark (state w)) ->
  (forall response lm,
      env (generateContent (identifyRequest base64)) = inr response ->
      JSON_parse (JsString.or_else (text response) "{}") = Some lm ->
      drawable lm) ->
  stays_drawn w (fst (run env (after_read base64) w)).
Proof.
  intros Hd Hid. unfold after_read. rewrite run_bind, run_exec.
  match goal with
  | |- context [setState ?f w] => set (w1 := setState f w)
  end.
  assert (H1 : stays_drawn w w1) by (apply stays_drawn_setState; exact Hd).
  rewrite run_bind.
  pose proof (stays_drawn_stage env (identifyLandmark base64) w1
                (leaves_cells_identifyLandmark base64) (proj2 H1)) as H2.
  destruct (run env (identifyLandmark base64) w1) as [w2 [e|lm]] eqn:Hrun.
  - exact (stays_drawn_trans _ _ _ H1 H2).
  - destruct (run_identifyLandmark_result env base64 w1 w2 lm Hrun) as (response & Hr & Hp).
    cbn [fst] in H2. apply (stays_drawn_trans _ w2).
    + exact (stays_drawn_trans _ _ _ H1 H2).
    + apply after_identify_drawn. exact (Hid response lm Hr Hp).
Qed.

Lemma pipeline_drawn (env : Env) (file : File) (w : World) :
  drawable (landmark (state w)) -> identifies_drawable env file ->
  stays_drawn w (fst (run env (pipeline file) w)).
Proof.
  intros Hd Hid. rewrite pipeline_segments, run_bind, run_await.
  destruct (env (fileToBase64 file)) as [e|base64] eqn:Hfile;
    [now apply stays_drawn_log_call|].
  apply (stays_drawn_trans _ (log_call (fileToBase64 file) w));
    [now apply stays_drawn_log_call|].
  apply after_read_drawn; [exact Hd|].
  intros response lm. now apply Hid.
Qed.

(** Every state a run writes renders, when the landmark it starts from and
    the landmark it identifies can be shown. *)
Lemma upload_run_renders (env : Env) (file : File) (w : World) :
  drawable (landmark (state w)) -> identifies_drawable env file ->
  renders_since w (fst (run env (handleFileUpload (Some file)) w)).
Proof.
  intros Hd Hid. rewrite run_handleFileUpload.
  pose proof (stays_drawn_entered w Hd) as H1.
  pose proof (pipeline_drawn env file (entered w) (proj2 H1) Hid) as H2.
  destruct (run env (pipeline file) (entered w)) as [w' [e|a]]; cbn [fst] in H2.
  - unfold on_error. rewrite run_exec. cbn [fst].
    apply (stays_drawn_trans _ _ _ (stays_drawn_trans _ _ _ H1 H2)).
    apply stays_drawn_setState. exact (proj2 H2).
  - exact (proj1 (stays_drawn_trans _ _ _ H1 H2)).
Qed.

Lemma rejected_identifies_drawable (env : Env) (file : File) (base64 : string)
    (cs : list Call) (e : Exn) :
  env (fileToBase64 file) = inr base64 ->
  rejects env (identifyLandmark base64) cs e ->
  identifies_drawable env file.
Proof.
  intros Hfile Hrej b response lm Hb Hr Hp.
  assert (b = base64) by congruence. subst b.
  pose proof (run_identifyLandmark_parsed env base64 response lm (initialWorld false) Hr Hp)
    as H.
  rewrite (Hrej (initialWorld false)) in H. inversion H.
Qed.

Lemma resolved_identifies_drawable (env : Env) (file : File) (base64 : string)
    (cs : list Call) (lm : json number) :
  env (fileToBase64 file) = inr base64 ->
  resolves env (identifyLandmark base64) cs lm ->
  drawable lm ->
  identifies_drawable env file.
Proof.
  intros Hfile Hres Hd b response lm' Hb Hr Hp.
  assert (b = base64) by congruence. subst b.
  pose proof (run_identifyLandmark_parsed env base64 response lm' (initialWorld false) Hr Hp)
    as H.
  rewrite (Hres (initialWorld false)) in H. inversion H. subst. exact Hd.
Qed.


(** X16.  A reset does not call off a narration that is on its way.  In a
    run whose landmark has the requested shape, if the user resets while the
    narration is being synthesised, the response that arrives afterwards is
    still decoded and played: the state the reset had emptied becomes
    [ready] with the buffer, with no picture, landmark or history, and the
    buffer plays on the only active handle.  Every state written on the way
    renders. *)
Theorem late_narration_plays_after_reset (env : Env) (file : File) (w : World)
    (base64 : string) (r1 r2 r3 : GenerateContentResponse) (lm : json number)
    (name : jsval) (name_text audio : string) (bytes : list Byte.byte)
    (buffer : AudioBuffer) :
  let h := {| fullStory := JsString.or_else (text r2) "No information found.";
              sources := omap (fun chunk =>
                                 (fun wb => mkSource (web_title wb) (web_uri wb)) <$> web chunk)
                              (groundingChunks_of r2) |} in
  playback_inv w ->
  drawable (landmark (state w)) ->
  env (fileToBase64 file) = inr base64 ->
  env (generateContent (identifyRequest base64)) = inr r1 ->
  JSON_parse (JsString.or_else (text r1) "{}") = Some lm ->
  conforms landmarkSchema lm = true ->
  get_name lm = inr name ->
  template name = inr name_text ->
  env (generateContent (researchRequest (researchPrompt name_text))) = inr r2 ->
  env (generateContent (narrateRequest (name_text ++ ". " ++ fullStory h))) = inr r3 ->
  base64Audio_of r3 = Some audio ->
  audio <> "" ->
  decodeBase64 audio = inr bytes ->
  env (decodeAudioData bytes (audioContextRef (entered w))) = inr buffer ->
  let narrating_ :=
    settle env 0 (settle env 0 (settle env 0 (upload (Some file) (mkSystem w [])))) in
  let late := settle env 0 (settle env 0 (reset narrating_)) in
  loadingStage (state (world narrating_)) = narrating /\
  state (world (reset narrating_)) = initialState /\
  state (world late)
  = {| image := None; landmark := JNull; history := None; audioBuffer := Some buffer;
       loadingStage := ready; error := None |} /\
  tasks late = [] /\
  renders_since w (world late) /\
  exists handle,
    active_handles (world late) = [handle] /\
    nodes (world late) !! handle = Some (mkNode buffer playing).
Proof.
  intros h Hinv Hd Hfile Hr1 Hparse Hshape Hname Htext Hr2 Hr3 Haudio Hne Hdec Hbuf.
  cbv zeta.
  subst h. set (h := {| fullStory := _; sources := _ |}) in *.
  destruct (researching_after_identify env file w base64 r1 lm name name_text
              Hfile Hr1 Hparse Hname Htext)
    as (W & k & -> & Hst & Hn & Href & Hctx & Hcommits & Hk).
  assert (HdW : stays_drawn w W).
  { split.
    - eexists. split; [exact Hcommits|].
      apply List.Forall_cons; [now apply renders_without_image|].
      apply List.Forall_cons; [apply drawable_renders; exact Hd|].
      apply List.Forall_cons; [apply drawable_renders; now right | apply List.Forall_nil].
    - rewrite Hst. now right. }
  destruct (research_blocks lm h name name_text W Hname Htext) as (k2 & Hk2 & Hk2').
  rewrite settle_single, Hr2, Hk. fold h.
  rewrite (spawn_blocked _ (mkSystem W []) _ _ _ Hk2). cbn [tasks app].
  set (Wn := log_call _ (setState _ W)).
  assert (HdWn : stays_drawn W Wn).
  { subst Wn.
    match goal with
    | |- stays_drawn _ (log_call _ ?w1) => apply (stays_drawn_trans _ w1)
    end; [apply stays_drawn_setState | apply stays_drawn_log_call]; exact (proj2 HdW). }
  assert (HreadyW : playback_ready Wn).
  { apply (playback_ready_ext (entered w)); subst Wn;
      cbn [nodes audioSourceRef audioContextRef log_call setState with_calls with_state].
    - now rewrite Hn; destruct (entered_cells w) as (-> & _).
    - now rewrite Href; destruct (entered_cells w) as (_ & -> & _).
    - exact Hctx.
    - now apply playback_ready_entered. }
  assert (HctxW : audioContextRef Wn = audioContextRef (entered w)).
  { subst Wn. exact Hctx. }
  unfold reset. cbn [world tasks].
  destruct (resetTour_components Wn) as (Hrst & _ & _ & _ & Hrc & _).
  pose proof (playback_ready_reset Wn HreadyW) as Hready_reset.
  pose proof (stays_drawn_reset Wn) as HdWr.
  set (Wr := resetTour Wn) in *.
  destruct (narrate_blocks audio bytes Wr Hdec) as (k3 & Hk3 & Hk3').
  rewrite settle_single, Hr3, (Hk2' _ _ Haudio Hne).
  rewrite (spawn_blocked _ (mkSystem Wr []) _ _ _ Hk3). cbn [tasks app].
  rewrite settle_single.
  assert (Hreply : env (decodeAudioData bytes (audioContextRef Wr)) = inr buffer).
  { rewrite Hrc, HctxW. exact Hbuf. }
  rewrite Hreply, Hk3'.
  rewrite (spawn_finished _ (mkSystem _ []) _ _ (decode_finishes buffer _)).
  cbn [world tasks].
  match goal with
  | |- context [playNarration buffer ?w0] => set (before := w0)
  end.
  assert (Hbefore : playback_ready before).
  { apply (playback_ready_ext Wr); [reflexivity | reflexivity | reflexivity | exact Hready_reset]. }
  destruct (playNarration_single_handle buffer before Hbefore) as (Hact & Hnode & _).
  destruct (playNarration_cells buffer before) as (Hstate & _).
  assert (Hdb : stays_drawn Wr before).
  { subst before.
    match goal with
    | |- stays_drawn _ (setState _ ?w1) => apply (stays_drawn_trans _ w1)
    end; [apply stays_drawn_log_call | apply stays_drawn_setState]; exact (proj2 HdWr). }
  split_and!.
  - subst Wn. reflexivity.
  - exact Hrst.
  - rewrite Hstate. subst before.
    cbn [state log_call setState with_calls with_state]. now rewrite Hrst.
  - reflexivity.
  - exact (proj1
      (stays_drawn_trans _ _ _
         (stays_drawn_trans _ _ _
            (stays_drawn_trans _ _ _ (stays_drawn_trans _ _ _ HdW HdWn) HdWr) Hdb)
         (stays_drawn_play buffer before (proj2 Hdb)))).
  - eauto.
Qed.

(** ** The claims about a whole run, with the page rendered *)

(** C1, as the code has it.  In a run whose landmarks can be shown (the one
    already in the state, and the one identified, which has the requested
    shape), when a stage's call fails the run stops there: no later call is
    made, [loadingStage] is [idle], [error] is the message of the failure,
    and every state written renders.  The handler clears nothing: [image] keeps
    the picture just read and the results of the stages that succeeded stay
    in [landmark] and [history]; the fields of the failed stage and of the
    later ones are left as they were before the run. *)
Theorem stage_failure_aborts_run (env : Env) (file : File) (base64 : string) (w : World) :
  env (fileToBase64 file) = inr base64 ->
  drawable (landmark (state w)) ->
  let final := run env (handleFileUpload (Some file)) w in
  let picture := Some ("data:image/jpeg;base64," ++ base64) in
  (forall cs e,
      rejects env (identifyLandmark base64) cs e ->
      snd final = inr tt /\
      state (fst final)
      = {| image := picture; landmark := landmark (state w);
           history := history (state w); audioBuffer := audioBuffer (state w);
           loadingStage := idle; error := message e |} /\
      calls (fst final) = (calls w ++ fileToBase64 file :: cs)%list /\
      renders_since w (fst final)) /\
  (forall cs1 lm name cs2 e,
      resolves env (identifyLandmark base64) cs1 lm ->
      conforms landmarkSchema lm = true ->
      get_name lm = inr name ->
      rejects env (researchLandmark name) cs2 e ->
      snd final = inr tt /\
      state (fst final)
      = {| image := picture; landmark := lm;
           history := history (state w); audioBuffer := audioBuffer (state w);
           loadingStage := idle; error := message e |} /\
      calls (fst final) = (calls w ++ fileToBase64 file :: cs1 ++ cs2)%list /\
      renders_since w (fst final)) /\
  (forall cs1 lm name name_text cs2 h cs3 e,
      resolves env (identifyLandmark base64) cs1 lm ->
      conforms landmarkSchema lm = true ->
      get_name lm = inr name ->
      template name = inr name_text ->
      resolves env (researchLandmark name) cs2 h ->
      rejects env (narrateHistory (name_text ++ ". " ++ fullStory h)) cs3 e ->
      snd final = inr tt /\
      state (fst final)
      = {| image := picture; landmark := lm;
           history := Some h; audioBuffer := audioBuffer (state w);
           loadingStage := idle; error := message e |} /\
      calls (fst final) = (calls w ++ fileToBase64 file :: cs1 ++ cs2 ++ cs3)%list /\
      renders_since w (fst final)).
Proof.
  intros Hfile Hd final picture. subst final picture.
  pose proof (failed_stage_run env file base64 w Hfile) as H. cbv zeta in H.
  destruct H as (H1 & H2 & H3).
  split; [|split].
  - intros cs e Hrej. destruct (H1 cs e Hrej) as (Ha & Hb & Hc).
    split_and!; try assumption.
    apply upload_run_renders; [exact Hd|].
    exact (rejected_identifies_drawable env file base64 cs e Hfile Hrej).
  - intros cs1 lm name cs2 e Hid Hshape Hname Hrej.
    destruct (H2 cs1 lm name cs2 e Hid Hname Hrej) as (Ha & Hb & Hc).
    split_and!; try assumption.
    apply upload_run_renders; [exact Hd|].
    apply (resolved_identifies_drawable env file base64 cs1 lm Hfile Hid). now right.
  - intros cs1 lm name name_text cs2 h cs3 e Hid Hshape Hname Htext Hres Hrej.
    destruct (H3 cs1 lm name name_text cs2 h cs3 e Hid Hname Htext Hres Hrej)
      as (Ha & Hb & Hc).
    split_and!; try assumption.
    apply upload_run_renders; [exact Hd|].
    apply (resolved_identifies_drawable env file base64 cs1 lm Hfile Hid). now right.
Qed.


(** ** Extras about a whole run *)

Lemma upload_keeps_context (env : Env) (file : File) (w : World) :
  audioContextRef w <> None ->
  audioContextRef (fst (run env (handleFileUpload (Some file)) w)) = audioContextRef w.
Proof.
  intros Hctx.
  apply (run_preserves (fun w' => audioContextRef w' = audioContextRef w));
    [intros c w0 H; exact H | | reflexivity].
  preserves_handler
    ltac:(idtac; cbv beta in *;
          match goal with
          | H : audioContextRef ?w0 = _ |- _ =>
              first [ exact H
                    | rewrite <- H; apply triggerHaptic_spec
                    | rewrite <- H; apply playNarration_cells
                    | unfold initAudioContext;
                      destruct (audioContextRef w0) eqn:E; congruence ]
          end).
Qed.

(** X1.  A run that starts with the audio context in place always settles
    when nothing else runs in between, provided the landmark in the state
    and whatever is identified can be shown: the handler returns normally
    and leaves the stage either [ready], with a buffer and no error, when
    the [try] block completes, or [idle], with [error] the message of what
    the [try] block threw.  It never stays in [identifying], [researching]
    or [narrating]; every state written renders and the audio context is
    the one it started with. *)
Theorem run_always_settles (env : Env) (file : File) (w : World) :
  audioContextRef w <> None ->
  drawable (landmark (state w)) ->
  identifies_drawable env file ->
  let attempt := run env (pipeline file) (entered w) in
  let final := run env (handleFileUpload (Some file)) w in
  snd final = inr tt /\
  renders_since w (fst final) /\
  audioContextRef (fst final) = audioContextRef w /\
  match snd attempt with
  | inr _ =>
      loadingStage (state (fst final)) = ready /\
      error (state (fst final)) = None /\
      audioBuffer (state (fst final)) <> None
  | inl e =>
      loadingStage (state (fst final)) = idle /\
      error (state (fst final)) = message e
  end.
Proof.
  intros Hctx Hd Hid attempt final.
  pose proof (upload_run_renders env file w Hd Hid) as Hr.
  pose proof (upload_keeps_context env file w Hctx) as Hc.
  subst attempt final. revert Hr Hc. rewrite run_handleFileUpload.
  pose proof (pipeline_ends_ready env file (entered w)) as H.
  destruct (run env (pipeline file) (entered w)) as [w' [e|[]]].
  - unfold on_error. rewrite run_exec. simpl. intros Hr Hc. split_and!; auto.
  - simpl in *. destruct H as (H1 & H2 & H3). intros Hr Hc.
    rewrite state_entered in H2. split_and!; auto.
Qed.

(** X3.  In a run whose landmarks can be shown, when the narration's audio
    cannot be decoded, either because [decodeBase64] throws or because
    [decodeAudioData] rejects, the run ends [idle] with the message of what
    was thrown; [audioBuffer] is left as it was, no source node is created,
    nothing is played, and every state written renders. *)
Theorem undecodable_audio_plays_nothing (env : Env) (file : File) (w : World)
    (base64 : string) (cs1 cs2 cs3 : list Call) (lm : json number) (name : jsval)
    (name_text audio : string) (h : DetailedHistory) (e : Exn) :
  drawable (landmark (state w)) ->
  env (fileToBase64 file) = inr base64 ->
  resolves env (identifyLandmark base64) cs1 lm ->
  conforms landmarkSchema lm = true ->
  get_name lm = inr name ->
  template name = inr name_text ->
  resolves env (researchLandmark name) cs2 h ->
  resolves env (narrateHistory (name_text ++ ". " ++ fullStory h)) cs3 audio ->
  decodeBase64 audio = inl e \/
  (exists bytes, decodeBase64 audio = inr bytes /\
                 env (decodeAudioData bytes (audioContextRef (entered w))) = inl e) ->
  let final := fst (run env (handleFileUpload (Some file)) w) in
  state final
  = {| image := Some ("data:image/jpeg;base64," ++ base64); landmark := lm;
       history := Some h; audioBuffer := audioBuffer (state w);
       loadingStage := idle; error := message e |} /\
  nodes final = nodes w /\
  audioSourceRef final = audioSourceRef w /\
  renders_since w final.
Proof.
  intros Hd Hfile Hid Hshape Hname Htext Hres Hnar Hdec final.
  pose proof (undecodable_audio_run env file w base64 cs1 cs2 cs3 lm name name_text audio
                h e Hfile Hid Hname Htext Hres Hnar Hdec) as H.
  cbv zeta in H. destruct H as (Ha & Hb & Hc).
  subst final. split_and!; try assumption.
  apply upload_run_renders; [exact Hd|].
  apply (resolved_identifies_drawable env file base64 cs1 lm Hfile Hid). now right.
Qed.

(** X5.  On a successful run with a landmark of the requested shape the
    state is written exactly five times, the stage going [identifying],
    [identifying], [researching], [narrating], [ready] without skipping or
    going back, and the content fields filling in order: picture, landmark,
    history, audio.  Each of the five states renders. *)
Theorem successful_run_commits (env : Env) (file : File) (w : World)
    (base64 : string) (cs1 cs2 cs3 : list Call) (lm : json number) (name : jsval)
    (name_text audio : string) (h : DetailedHistory) (bytes : list Byte.byte)
    (buffer : AudioBuffer) :
  drawable (landmark (state w)) ->
  env (fileToBase64 file) = inr base64 ->
  resolves env (identifyLandmark base64) cs1 lm ->
  conforms landmarkSchema lm = true ->
  get_name lm = inr name ->
  template name = inr name_text ->
  resolves env (researchLandmark name) cs2 h ->
  resolves env (narrateHistory (name_text ++ ". " ++ fullStory h)) cs3 audio ->
  decodeBase64 audio = inr bytes ->
  env (decodeAudioData bytes (audioContextRef (entered w))) = inr buffer ->
  let picture := Some ("data:image/jpeg;base64," ++ base64) in
  let st := state w in
  let written :=
    [ {| image := None; landmark := landmark st; history := history st;
         audioBuffer := audioBuffer st; loadingStage := identifying; error := None |};
      {| image := picture; landmark := landmark st; history := history st;
         audioBuffer := audioBuffer st; loadingStage := identifying; error := None |};
      {| image := picture; landmark := lm; history := history st;
         audioBuffer := audioBuffer st; loadingStage := researching; error := None |};
      {| image := picture; landmark := lm; history := Some h;
         audioBuffer := audioBuffer st; loadingStage := narrating; error := None |};
      {| image := picture; landmark := lm; history := Some h;
         audioBuffer := Some buffer; loadingStage := ready; error := None |} ] in
  commits (fst (run env (handleFileUpload (Some file)) w)) = (commits w ++ written)%list /\
  Forall renders written.
Proof.
  intros Hd Hfile Hid Hshape Hname Htext Hres Hnar Hdec Hbuf picture st written.
  pose proof (commits_on_success env file w base64 cs1 cs2 cs3 lm name name_text
                audio h bytes buffer Hfile Hid Hname Htext Hres Hnar Hdec Hbuf) as H.
  cbv zeta in H. split; [exact H|].
  assert (Hlm : drawable lm) by now right.
  subst written picture st.
  repeat (apply List.Forall_cons; [apply drawable_renders; assumption|]).
  apply List.Forall_nil.
Qed.

(** ** Runs are started by uploads only *)
















End Coverage.

(** * Closed instances *)

Module Examples.

Import Sample.

#[local] Existing Instance platform.

Local Abbreviation run_sample env :=
  (run (P := platform) env (handleFileUpload (Some photo)) (initialWorld false)).

Lemma stage_failure_aborts_run_witness :
  identify_fails_env (fileToBase64 photo) = inr "QUJD" /\
  drawable (landmark (state (initialWorld false))) /\
  conforms landmarkSchema landmark_value = true /\
  rejects (P := platform) identify_fails_env (identifyLandmark "QUJD")
    [generateContent (identifyRequest "QUJD")] (Error "Network error") /\
  state (fst (run_sample identify_fails_env))
  = {| image := Some "data:image/jpeg;base64,QUJD"; landmark := JNull;
       history := None; audioBuffer := None;
       loadingStage := idle; error := Some "Network error" |} /\
  state (fst (run_sample research_fails_env))
  = {| image := Some "data:image/jpeg;base64,QUJD"; landmark := landmark_value;
       history := None; audioBuffer := None;
       loadingStage := idle; error := Some "Quota exceeded" |} /\
  state (fst (run_sample narrate_fails_env))
  = {| image := Some "data:image/jpeg;base64,QUJD"; landmark := landmark_value;
       history := Some {| fullStory := "Built in 1889.";
                          sources := [ mkSource (Some "Wikipedia")
                                         (Some "https://en.wikipedia.org/wiki/Eiffel_Tower") ] |};
       audioBuffer := None;
       loadingStage := idle; error := Some "No audio data generated." |}.
Proof.
  split; [reflexivity|]. split; [now left|]. split; [reflexivity|].
  split; [intros w; reflexivity|]. split; [|split].
  - refine (proj1 (proj2
      (proj1 (stage_failure_aborts_run (P := platform) identify_fails_env photo "QUJD"
                (initialWorld false) eq_refl (or_introl eq_refl))
         [generateContent (identifyRequest "QUJD")] (Error "Network error") _))).
    intros w. reflexivity.
  - refine (proj1 (proj2
      (proj1 (proj2 (stage_failure_aborts_run (P := platform) research_fails_env photo "QUJD"
                (initialWorld false) eq_refl (or_introl eq_refl)))
         [generateContent (identifyRequest "QUJD")] landmark_value
         (Some (JStr "Eiffel Tower"))
         [generateContent (researchRequest (researchPrompt "Eiffel Tower"))]
         (Error "Quota exceeded") _ eq_refl eq_refl _))).
    + intros w. reflexivity.
    + intros w. reflexivity.
  - refine (proj1 (proj2
      (proj2 (proj2 (stage_failure_aborts_run (P := platform) narrate_fails_env photo "QUJD"
                (initialWorld false) eq_refl (or_introl eq_refl)))
         [generateContent (identifyRequest "QUJD")] landmark_value
         (Some (JStr "Eiffel Tower")) "Eiffel Tower"
         [generateContent (researchRequest (researchPrompt "Eiffel Tower"))]
         {| fullStory := "Built in 1889.";
            sources := [ mkSource (Some "Wikipedia")
                           (Some "https://en.wikipedia.org/wiki/Eiffel_Tower") ] |}
         [generateContent (narrateRequest "Eiffel Tower. Built in 1889.")]
         (Error "No audio data generated.") _ eq_refl eq_refl eq_refl _ _))).
    + intros w. reflexivity.
    + intros w. reflexivity.
    + intros w. reflexivity.
Defined.

(** After a narration failure the picture, the landmark and the history are
    all still in the state. *)
Lemma failure_keeps_content :
  let final := fst (run_sample narrate_fails_env) in
  loadingStage (state final) = idle /\
  error (state final) = Some "No audio data generated." /\
  image (state final) = Some "data:image/jpeg;base64,QUJD" /\
  landmark (state final) = landmark_value /\
  history (state final)
  = Some {| fullStory := "Built in 1889.";
            sources := [ mkSource (Some "Wikipedia")
                           (Some "https://en.wikipedia.org/wiki/Eiffel_Tower") ] |}.
Proof. vm_compute. repeat split. Qed.

(** A text of 1000 characters is sent in a prompt of 1048. *)
Lemma narration_prompt_over_1000 :
  let story := JsString.replicate 1000 "a" in
  calls (fst (advance (narrateHistory (P := platform) story) (initialWorld false)))
  = [ generateContent (narrateRequest story) ] /\
  contents (narrateRequest story) = [ text_part (narrationPrompt story) ] /\
  String.length (narrationPrompt story) = 1048%nat /\
  ~ (String.length (narrationPrompt story) <= 1000)%nat.
Proof.
  cbv zeta. split_and!; try reflexivity.
  assert (H : String.length (narrationPrompt (JsString.replicate 1000 "a")) = 1048%nat)
    by (vm_compute; reflexivity).
  rewrite H. lia.
Qed.


(** The handler itself has no guard: applied to a system that is
    researching, where the page has no file input to call it from, it would
    start over. *)
Lemma second_upload_restarts :
  let s := researching_system in
  let s' := upload (Some photo) s in
  loadingStage (state (world s)) = researching /\
  image (state (world s)) = Some "data:image/jpeg;base64,QUJD" /\
  loadingStage (state (world s')) = identifying /\
  image (state (world s')) = None /\
  state (world s') <> state (world s) /\
  map awaited (tasks s')
  = [ generateContent (researchRequest (researchPrompt "Eiffel Tower"));
      fileToBase64 photo ].
Proof.
  cbv zeta. split_and!; try (vm_compute; reflexivity).
  intros H. apply (f_equal loadingStage) in H. vm_compute in H. discriminate.
Qed.

Lemma stale_response_is_applied_witness :
  ok_env (generateContent (identifyRequest "QUJD")) = inr (text_response landmark_text) /\
  JSON_parse (JsString.or_else (text (text_response landmark_text)) "{}")
  = Some landmark_value /\
  state (world (settle ok_env 0
                  (reset (settle ok_env 0
                            (upload (Some photo) (mkSystem (initialWorld false) []))))))
  = {| image := None; landmark := landmark_value; history := None;
       audioBuffer := None; loadingStage := researching; error := None |}.
Proof.
  split; [reflexivity|]. split; [reflexivity|].
  exact (proj1 (proj2 (proj2 (proj2
    (stale_response_is_applied (P := platform) ok_env photo (initialWorld false) "QUJD"
       (text_response landmark_text) landmark_value (Some (JStr "Eiffel Tower"))
       "Eiffel Tower" eq_refl eq_refl eq_refl eq_refl eq_refl))))).
Defined.

(** The user resets while identification is pending; the response that
    arrives afterwards puts a landmark and the [researching] stage into the
    state the reset had cleared. *)
Lemma late_identification_resurrects_state :
  let running := identifying_system in
  let late := settle ok_env 0 (reset running) in
  reachable false late /\
  state (world (reset running)) = initialState /\
  loadingStage (state (world late)) = researching /\
  landmark (state (world late)) = landmark_value /\
  state (world late) <> initialState.
Proof.
  cbv zeta. split_and!.
  - apply reachable_step with (s := reset identifying_system); [|apply step_settle].
    apply reachable_step with (s := identifying_system);
      [|apply step_reset; vm_compute; reflexivity].
    apply reachable_step with (s := reading); [|apply step_settle].
    apply reachable_step with (s := initialSystem false);
      [apply reachable_init | apply step_upload; reflexivity].
  - vm_compute; reflexivity.
  - vm_compute; reflexivity.
  - vm_compute; reflexivity.
  - intros H. apply (f_equal loadingStage) in H. vm_compute in H. discriminate.
Qed.

Lemma identification_payload_handling_samples :
  unparsable_env (generateContent (identifyRequest "QUJD")) = inr (text_response "not json") /\
  JSON_parse (JsString.or_else (text (text_response "not json")) "{}") = None /\
  error (state (fst (run_sample unparsable_env)))
  = Some "Failed to parse landmark identification data." /\
  empty_payload_env (generateContent (identifyRequest "QUJD")) = inr empty_response /\
  JSON_parse (JsString.or_else (text empty_response) "{}") = Some (JObj []) /\
  map awaited
    (tasks (settle empty_payload_env 0
              (settle empty_payload_env 0
                 (upload (Some photo) (mkSystem (initialWorld false) [])))))
  = [ generateContent (researchRequest (researchPrompt "undefined")) ].
Proof.
  split; [reflexivity|]. split; [reflexivity|]. split; [|split; [reflexivity|split; [reflexivity|]]].
  - exact (proj1 (proj2
      (proj1 (identification_payload_handling (P := platform) unparsable_env photo
                (initialWorld false) "QUJD" (text_response "not json") eq_refl eq_refl)
         eq_refl))).
  - exact (proj2
      (proj2 (identification_payload_handling (P := platform) empty_payload_env photo
                (initialWorld false) "QUJD" empty_response eq_refl eq_refl)
         [] "undefined" eq_refl eq_refl)).
Defined.

(** An identification response without text is read as the empty object,
    which has none of the required fields; the run goes on to research a
    landmark called "undefined". *)
Lemma incomplete_payload_reaches_research :
  let s3 := settle empty_payload_env 0
              (settle empty_payload_env 0
                 (upload (Some photo) (initialSystem false))) in
  JSON_parse (JsString.or_else (text empty_response) "{}") = Some (JObj []) /\
  conforms landmarkSchema (JObj []) = false /\
  landmark (state (world s3)) = JObj [] /\
  loadingStage (state (world s3)) = researching /\
  error (state (world s3)) = None /\
  map awaited (tasks s3)
  = [ generateContent (researchRequest (researchPrompt "undefined")) ].
Proof. cbv zeta. split_and!; vm_compute; reflexivity. Qed.

Example complete_payload_conforms : conforms landmarkSchema landmark_value = true.
Proof. reflexivity. Qed.

(** C6, at an identification response that carries no text.  The response
    is read as the text of an empty object, which parses; it has none of
    the required fields, yet nothing fails: the object is stored as the
    landmark, the stage becomes [researching] with no [error], research is
    requested for a landmark called "undefined", and the results view of
    that state cannot be rendered, its marker overlay throwing a type
    error.  The system is one the page reaches: an upload, then the two
    promises settling. *)
Theorem empty_identification_response_crashes :
  let s3 := settle empty_payload_env 0
              (settle empty_payload_env 0
                 (upload (Some photo) (initialSystem false))) in
  reachable false s3 /\
  empty_payload_env (fileToBase64 photo) = inr "QUJD" /\
  empty_payload_env (generateContent (identifyRequest "QUJD")) = inr empty_response /\
  text empty_response = None /\
  JSON_parse (JsString.or_else (text empty_response) "{}") = Some (JObj []) /\
  conforms landmarkSchema (JObj []) = false /\
  state (world s3)
  = {| image := Some "data:image/jpeg;base64,QUJD"; landmark := JObj [];
       history := None; audioBuffer := None;
       loadingStage := researching; error := None |} /\
  map awaited (tasks s3)
  = [ generateContent (researchRequest (researchPrompt "undefined")) ] /\
  results_markers (state (world s3))
  = inl (TypeError "Cannot read properties of undefined (reading 'map')").
Proof.
  cbv zeta. split_and!; try (vm_compute; reflexivity).
  apply reachable_step
    with (s := settle empty_payload_env 0 (upload (Some photo) (initialSystem false)));
    [|apply step_settle].
  apply reachable_step with (s := upload (Some photo) (initialSystem false));
    [|apply step_settle].
  apply reachable_step with (s := initialSystem false);
    [apply reachable_init | apply step_upload; reflexivity].
Qed.

Lemma play_interrupts_witness :
  playback_ready (initAudioContext (initialWorld false)) /\
  exists handle,
    active_handles (playNarration buffer
                      (playNarration (Codec.decodeAudioSamples [] 24000)
                         (initAudioContext (initialWorld false)))) = [handle].
Proof.
  assert (Hready : playback_ready (initAudioContext (initialWorld false))).
  { split; [intros i Hi; inversion Hi | discriminate]. }
  split; [exact Hready|].
  destruct (proj1 (play_interrupts (P := platform)
                     (Codec.decodeAudioSamples [] 24000) buffer
                     (initAudioContext (initialWorld false)) Hready))
    as (handle & Hactive & _).
  exists handle. exact Hactive.
Defined.

Example two_plays_one_handle :
  let w := playNarration buffer
             (playNarration (Codec.decodeAudioSamples [] 24000)
                (initAudioContext (initialWorld false))) in
  active_handles w = [1%nat] /\
  nodes w = [ mkNode (Codec.decodeAudioSamples [] 24000) finished; mkNode buffer playing ].
Proof. cbv zeta. split; vm_compute; reflexivity. Qed.


Lemma ready_system_reachable : reachable false ready_system.
Proof.
  apply reachable_step with (s := decoding_system); [|apply step_settle].
  apply reachable_step with (s := narrating_system); [|apply step_settle].
  apply reachable_step with (s := researching_system); [|apply step_settle].
  apply reachable_step with (s := identifying_system); [|apply step_settle].
  apply reachable_step with (s := reading); [|apply step_settle].
  apply reachable_step with (s := initialSystem false);
    [apply reachable_init | apply step_upload; reflexivity].
Defined.


Lemma reset_restores_initial_state_witness :
  reachable false ready_system /\
  active_handles (world ready_system) = [0%nat] /\
  state (world (reset ready_system)) = initialState /\
  active_handles (world (reset ready_system)) = [].
Proof.
  split; [exact ready_system_reachable|]. split; [vm_compute; reflexivity|].
  pose proof (reset_restores_initial_state (P := platform) false ready_system
                ready_system_reachable) as H.
  split; [exact (proj1 H) | exact (proj1 (proj2 H))].
Defined.

Lemma researchLandmark_total_witness :
  template (Some (JStr "Eiffel Tower")) = inr "Eiffel Tower" /\
  ok_env (generateContent (researchRequest (researchPrompt "Eiffel Tower")))
  = inr (grounded_response "Built in 1889.") /\
  exists h,
    run ok_env (researchLandmark (Some (JStr "Eiffel Tower"))) (initialWorld false)
    = (log_call (generateContent (researchRequest (researchPrompt "Eiffel Tower")))
         (initialWorld false), inr h).
Proof.
  split; [reflexivity|]. split; [reflexivity|].
  destruct (researchLandmark_total (P := platform) ok_env (Some (JStr "Eiffel Tower"))
              "Eiffel Tower" (grounded_response "Built in 1889.") (initialWorld false)
              eq_refl eq_refl) as (h & Hrun & _).
  exists h. exact Hrun.
Defined.

Example research_on_empty_response :
  snd (run (env_of (inr "QUJD") (inr (text_response landmark_text))
              (inr empty_response) (inr empty_response) (inr buffer))
           (researchLandmark (Some (JStr "Eiffel Tower"))) (initialWorld false))
  = inr {| fullStory := "No information found."; sources := [] |}.
Proof. vm_compute. reflexivity. Qed.

End Examples.

Module CoverageExamples.

Import Sample.

#[local] Existing Instance platform.

Local Abbreviation run_sample env :=
  (run (P := platform) env (handleFileUpload (Some photo)) (initialWorld false)).

Local Abbreviation ctx24 := (Some {| ctx_sampleRate := 24000 |}).

Lemma ok_env_identifies_drawable : identifies_drawable (P := platform) ok_env photo.
Proof.
  intros base64 response lm Hfile Hresp Hparse.
  vm_compute in Hfile. inversion Hfile; subst base64.
  vm_compute in Hresp. inversion Hresp; subst response.
  vm_compute in Hparse. inversion Hparse; subst lm.
  right. reflexivity.
Defined.

Lemma run_always_settles_witness :
  audioContextRef (initAudioContext (initialWorld false)) <> None /\
  identifies_drawable (P := platform) ok_env photo /\
  loadingStage
    (state (fst (run (P := platform) ok_env (handleFileUpload (Some photo))
                   (initAudioContext (initialWorld false)))))
  = ready.
Proof.
  assert (Hctx : audioContextRef (initAudioContext (initialWorld false)) <> None)
    by discriminate.
  split; [exact Hctx|]. split; [exact ok_env_identifies_drawable|].
  exact (proj1 (proj2 (proj2 (proj2
    (run_always_settles (P := platform) ok_env photo (initAudioContext (initialWorld false))
       Hctx (or_introl eq_refl) ok_env_identifies_drawable))))).
Defined.

Lemma read_failure_sends_nothing_witness :
  read_fails_env (fileToBase64 photo) = inl (Error "File could not be read") /\
  calls (fst (run_sample read_fails_env)) = [ fileToBase64 photo ] /\
  error (state (fst (run_sample read_fails_env))) = Some "File could not be read".
Proof.
  split; [reflexivity|].
  pose proof (read_failure_sends_nothing (P := platform) read_fails_env photo
                (initialWorld false) (Error "File could not be read") eq_refl)
    as (Hst & Hcalls & _).
  split; [exact Hcalls | now rewrite Hst].
Defined.

(** A file reader that fails with its error event, which has no message:
    the run ends in the initial state, with no error to show. *)
Example read_failure_without_message :
  state (fst (run_sample
                (env_of (inl (mkExn "ProgressEvent" None))
                   (inr (text_response landmark_text))
                   (inr (grounded_response "Built in 1889."))
                   (inr (audio_response "AAD/fw==")) (inr buffer))))
  = initialState.
Proof. vm_compute. reflexivity. Qed.

Lemma undecodable_audio_plays_nothing_witness :
  decodeBase64 "***"
  = inl (mkExn "InvalidCharacterError"
            (Some "The string to be decoded is not correctly encoded.")) /\
  nodes (fst (run_sample bad_audio_env)) = [] /\
  loadingStage (state (fst (run_sample bad_audio_env))) = idle.
Proof.
  split; [reflexivity|].
  pose proof (undecodable_audio_plays_nothing (P := platform) bad_audio_env photo
                (initialWorld false) "QUJD"
                [generateContent (identifyRequest "QUJD")]
                [generateContent (researchRequest (researchPrompt "Eiffel Tower"))]
                [generateContent (narrateRequest "Eiffel Tower. Built in 1889.")]
                landmark_value (Some (JStr "Eiffel Tower")) "Eiffel Tower" "***"
                eiffel_history
                (mkExn "InvalidCharacterError"
                       (Some "The string to be decoded is not correctly encoded."))
                (or_introl eq_refl) eq_refl (fun w => eq_refl) eq_refl eq_refl eq_refl
                (fun w => eq_refl) (fun w => eq_refl) (or_introl eq_refl))
    as (Hst & Hnodes & _).
  split; [exact Hnodes | now rewrite Hst].
Defined.


Lemma successful_run_commits_witness :
  ok_env (decodeAudioData [Byte.x00; Byte.x00; Byte.xff; Byte.x7f] ctx24) = inr buffer /\
  map loadingStage (commits (fst (run_sample ok_env)))
  = [identifying; identifying; researching; narrating; ready].
Proof.
  split; [reflexivity|].
  destruct (successful_run_commits (P := platform) ok_env photo (initialWorld false) "QUJD"
              [generateContent (identifyRequest "QUJD")]
              [generateContent (researchRequest (researchPrompt "Eiffel Tower"))]
              [generateContent (narrateRequest "Eiffel Tower. Built in 1889.")]
              landmark_value (Some (JStr "Eiffel Tower")) "Eiffel Tower" "AAD/fw=="
              eiffel_history [Byte.x00; Byte.x00; Byte.xff; Byte.x7f] buffer
              (or_introl eq_refl) eq_refl (fun w => eq_refl) eq_refl eq_refl eq_refl
              (fun w => eq_refl) (fun w => eq_refl) eq_refl eq_refl) as [Hcommits _].
  rewrite Hcommits. reflexivity.
Defined.

Lemma play_all_single_handle_witness :
  playback_ready (initAudioContext (initialWorld false)) /\
  active_handles
    (play_all ([Codec.decodeAudioSamples [] 24000; buffer] ++ [buffer])
       (initAudioContext (initialWorld false)))
  = [2%nat].
Proof.
  assert (Hready : playback_ready (initAudioContext (initialWorld false))).
  { split; [intros i Hi; inversion Hi | discriminate]. }
  split; [exact Hready|].
  exact (proj1 (play_all_single_handle (P := platform)
                  [Codec.decodeAudioSamples [] 24000; buffer] buffer
                  (initAudioContext (initialWorld false)) Hready)).
Defined.

Lemma stop_never_throws_witness :
  reachable false ready_system /\
  audioSourceRef (world ready_system) = Some 0%nat /\
  exists w', source_stop 0 (world ready_system) = inr w'.
Proof.
  split; [exact Examples.ready_system_reachable|]. split; [vm_compute; reflexivity|].
  exact (proj2 (stop_never_throws (P := platform) false ready_system 0
                  Examples.ready_system_reachable eq_refl)).
Defined.

Lemma audio_context_stays_at_24000_witness :
  reachable false ready_system /\
  audioContextRef (world ready_system) = ctx24 /\
  (audioContextRef (world ready_system) = None \/
   exists ctx, audioContextRef (world ready_system) = Some ctx /\
               ctx_sampleRate ctx = 24000).
Proof.
  split; [exact Examples.ready_system_reachable|]. split; [vm_compute; reflexivity|].
  exact (proj1 (audio_context_stays_at_24000 (P := platform) false ready_system
                  Examples.ready_system_reachable)).
Defined.

Lemma ready_offers_replay_witness :
  reachable false ready_system /\
  loadingStage (state (world ready_system)) = ready /\
  exists b, audioBuffer (state (world ready_system)) = Some b /\
            replay_rendered (state (world ready_system)) = Some b.
Proof.
  split; [exact Examples.ready_system_reachable|]. split; [vm_compute; reflexivity|].
  exact (ready_offers_replay (P := platform) false ready_system
           Examples.ready_system_reachable eq_refl).
Defined.

Lemma replay_restarts_playback_witness :
  reachable false ready_system /\
  replay_rendered (state (world ready_system)) = Some buffer /\
  exists handle, active_handles (world (replay buffer ready_system)) = [handle].
Proof.
  split; [exact Examples.ready_system_reachable|]. split; [vm_compute; reflexivity|].
  destruct (replay_restarts_playback (P := platform) false ready_system buffer
              Examples.ready_system_reachable eq_refl) as (handle & Hactive & _).
  exists handle. exact Hactive.
Defined.

Lemma vibration_only_where_supported_witness :
  reachable true (upload (Some photo) (initialSystem true)) /\
  vibrations (world (upload (Some photo) (initialSystem true))) = [[40; 30; 40]] /\
  Forall (fun pattern => pattern = [40; 30; 40] \/ pattern = [20])
         (vibrations (world (upload (Some photo) (initialSystem true)))).
Proof.
  assert (Hreach : reachable true (upload (Some photo) (initialSystem true))).
  { apply reachable_step with (s := initialSystem true);
      [apply reachable_init | apply step_upload; reflexivity]. }
  split; [exact Hreach|]. split; [reflexivity|].
  exact (proj2 (vibration_only_where_supported (P := platform) true _ Hreach)).
Defined.

Lemma short_text_sent_whole_witness :
  (String.length "Eiffel Tower. Built in 1889." <= 1000)%nat /\
  contents (narrateRequest "Eiffel Tower. Built in 1889.")
  = [ text_part (narrationPrefix ++ "Eiffel Tower. Built in 1889.") ].
Proof.
  assert (Hlen : (String.length "Eiffel Tower. Built in 1889." <= 1000)%nat)
    by (vm_compute; lia).
  split; [exact Hlen|].
  exact (short_text_sent_whole "Eiffel Tower. Built in 1889." Hlen).
Defined.

Lemma narrateHistory_reads_first_part_witness :
  second_part_env (generateContent (narrateRequest "Eiffel Tower. Built in 1889."))
  = inr audio_in_second_part /\
  snd (run second_part_env (narrateHistory "Eiffel Tower. Built in 1889.")
         (initialWorld false))
  = inl (Error "No audio data generated.").
Proof.
  split; [reflexivity|].
  exact (narrateHistory_reads_first_part (P := platform) second_part_env
           "Eiffel Tower. Built in 1889." (initialWorld false) audio_in_second_part
           {| inlineData := None |}
           [ {| inlineData := Some {| blob_data := Some "AAD/fw==" |} |} ]
           None [] eq_refl eq_refl).
Defined.

Lemma conforming_landmark_renders_witness :
  conforms landmarkSchema (landmark eiffel_state) = true /\
  exists pois ms,
    get_property "pointsOfInterest" (landmark eiffel_state) = inr (Some (JArr pois)) /\
    poi_markers eiffel_state = inr ms /\
    length ms = length pois.
Proof.
  split; [reflexivity|].
  exact (conforming_landmark_renders (P := platform) eiffel_state eq_refl).
Defined.

Example eiffel_markers : results_markers eiffel_state = inr (Some [ ("50%", "10%") ]).
Proof. vm_compute. reflexivity. Qed.

Lemma incomplete_landmark_breaks_render_witness :
  JSON_parse (JsString.or_else (text empty_response) "{}") = Some (JObj []) /\
  lookup_field (P := platform) "pointsOfInterest" [] = None /\
  results_markers
    (state (world (settle empty_payload_env 0
                     (settle empty_payload_env 0
                        (upload (Some photo) (mkSystem (initialWorld false) []))))))
  = inl (TypeError "Cannot read properties of undefined (reading 'map')").
Proof.
  split; [reflexivity|]. split; [reflexivity|].
  exact (proj2 (proj2
    (incomplete_landmark_breaks_render (P := platform) empty_payload_env photo
       (initialWorld false) "QUJD" empty_response [] "undefined"
       eq_refl eq_refl eq_refl eq_refl eq_refl))).
Defined.

Lemma late_narration_plays_after_reset_witness :
  playback_inv (initialWorld false) /\
  conforms landmarkSchema landmark_value = true /\
  ok_env (generateContent (narrateRequest "Eiffel Tower. Built in 1889."))
  = inr (audio_response "AAD/fw==") /\
  state (world (settle ok_env 0 (settle ok_env 0 (reset narrating_system))))
  = {| image := None; landmark := JNull; history := None; audioBuffer := Some buffer;
       loadingStage := ready; error := None |}.
Proof.
  assert (Hinv : playback_inv (initialWorld false)).
  { intros i Hi. inversion Hi. }
  split; [exact Hinv|]. split; [reflexivity|]. split; [reflexivity|].
  exact (proj1 (proj2 (proj2
    (late_narration_plays_after_reset (P := platform) ok_env photo (initialWorld false)
       "QUJD" (text_response landmark_text) (grounded_response "Built in 1889.")
       (audio_response "AAD/fw==") landmark_value (Some (JStr "Eiffel Tower"))
       "Eiffel Tower" "AAD/fw==" [Byte.x00; Byte.x00; Byte.xff; Byte.x7f] buffer
       Hinv (or_introl eq_refl) eq_refl eq_refl eq_refl eq_refl eq_refl eq_refl eq_refl
       eq_refl eq_refl ltac:(discriminate) eq_refl eq_refl)))).
Defined.

End CoverageExamples.
